(** * VitaeAgent: the RAG orchestrator and the ingestion pipeline

    A shallow embedding of [backend/app/agent.py] (class [VitaeAgent]) and
    of [backend/scripts/ingest.py] (class [DataIngestionEngine]), and the
    properties of the specification that concern them; then of the model
    configuration, of the endpoints of [backend/app/main.py] and of the
    loaders, with further properties read off the code.

    Conventions.
    - A Python [str] is a [string]; its elements are the characters that
      [len] counts and slicing cuts.  [str.lower] is written out on the
      letters A-Z: no character outside that range lowers to a letter of
      "en" or "english", the only words the program compares a lowered
      string with.
    - A Python [int] is a [Z]; floating-point values are not modelled.
    - A [dict] with string keys is a [gmap string _]; [d.get(k, default)]
      is [default (d !! k)], [d[k]] raises [KeyError] on a missing key and
      [k in d] is [is_Some (d !! k)].
    - Code that can raise returns an [outcome]; code that also talks to the
      outside (embedding model, language model, translation service) is a
      state transformer over the state of that outside and a record of the
      calls made. *)

From Stdlib Require Import ZArith Ascii String DecimalString DecimalNat DecimalZ.
From stdpp Require Import gmap strings list.

Local Open Scope string_scope.

(** ** Python values *)

(** The values a metadata record holds once it is in the vector store:
    strings, integers and booleans; [None] is what a loader may leave. *)
Inductive Scalar : Type :=
| SNone
| SBool (b : bool)
| SInt (z : Z)
| SStr (s : string).

(** The values of a result dictionary: scalars, lists and dictionaries. *)
#[local] Set Warnings "-register-all".
Inductive PyVal : Type :=
| VScalar (v : Scalar)
| VList (l : list PyVal)
| VDict (d : gmap string PyVal).

Abbreviation VBool b := (VScalar (SBool b)).
Abbreviation VInt z := (VScalar (SInt z)).
Abbreviation VStr s := (VScalar (SStr s)).

(** Exceptions: the two the interpreter itself raises in the modelled code,
    and those raised by an outside component, known by their message. *)
Inductive Exn : Type :=
| TypeError (msg : string)
| KeyError (key : string)
| External (msg : string).

Inductive outcome (A : Type) : Type :=
| Ok (a : A)
| Raise (e : Exn).
Arguments Ok {A} a.
Arguments Raise {A} e.

(** [str(e)]: a [KeyError] prints the repr of its key. *)
Definition str_exn (e : Exn) : string :=
  match e with
  | TypeError msg => msg
  | KeyError key => "'" +:+ key +:+ "'"
  | External msg => msg
  end.

(** [str(n)] for an [int]. *)
Definition str_int (z : Z) : string := NilZero.string_of_int (Z.to_int z).

Definition str_nat (n : nat) : string := NilZero.string_of_uint (Nat.to_uint n).

Definition dquote : string := String "034"%char EmptyString.

(** [str(v)], as an f-string field [{v}] renders it. *)
Definition py_str (v : Scalar) : string :=
  match v with
  | SNone => "None"
  | SBool true => "True"
  | SBool false => "False"
  | SInt z => str_int z
  | SStr s => s
  end.

(** Truth value of an object, as [if v] and [v if url else w] take it. *)
Definition truthy (v : Scalar) : bool :=
  match v with
  | SNone => false
  | SBool b => b
  | SInt z => negb (z =? 0)%Z
  | SStr s => negb (String.eqb s "")
  end.

(** [v != ''] *)
Definition ne_empty_str (v : Scalar) : bool :=
  match v with
  | SStr s => negb (String.eqb s "")
  | _ => true
  end.

(** [v + 1] for the right operand the int [1]. *)
Definition add_one (v : Scalar) : outcome Scalar :=
  match v with
  | SInt z => Ok (SInt (z + 1))
  | SBool b => Ok (SInt ((if b then 1 else 0) + 1))
  | SStr _ =>
      Raise (TypeError ("can only concatenate str (not " +:+ dquote +:+ "int"
                        +:+ dquote +:+ ") to str"))
  | SNone =>
      Raise (TypeError "unsupported operand type(s) for +: 'NoneType' and 'int'")
  end.

(** [str.lower], on the ASCII letters. *)
Definition lower_ascii (c : ascii) : ascii :=
  let n := nat_of_ascii c in
  if (65 <=? n)%nat && (n <=? 90)%nat then ascii_of_nat (n + 32) else c.

Fixpoint lower (s : string) : string :=
  match s with
  | EmptyString => EmptyString
  | String c rest => String (lower_ascii c) (lower rest)
  end.

(** [language.lower() in ['en', 'english']] *)
Definition is_english (language : string) : bool :=
  let l := lower language in
  String.eqb l "en" || String.eqb l "english".

(** ** Documents and source labels *)

Record Document : Type := mkDocument {
  page_content : string;
  metadata : gmap string Scalar
}.

(** [metadata.get(key, default)] *)
Definition get (md : gmap string Scalar) (key : string) (dflt : Scalar) : Scalar :=
  default dflt (md !! key).

(** [v == 'literal'] for a string literal. *)
Definition eq_str (v : Scalar) (literal : string) : bool :=
  match v with
  | SStr s => String.eqb s literal
  | _ => false
  end.

(** [VitaeAgent._extract_source_info] *)
Definition _extract_source_info (md : gmap string Scalar) : outcome Scalar :=
  let source_type := get md "source_type" (SStr "unknown") in
  if eq_str source_type "pdf" then
    let source := get md "source" (SStr "Unknown PDF") in
    let page := get md "page" (SStr "") in
    if ne_empty_str page then
      match add_one page with
      | Ok p => Ok (SStr (py_str source +:+ ", Page " +:+ py_str p))
      | Raise e => Raise e
      end
    else Ok (SStr (py_str source +:+ ""))
  else if eq_str source_type "text" then
    Ok (get md "source" (SStr "Unknown Text File"))
  else if eq_str source_type "blog" then
    let title := get md "title" (SStr "Blog Post") in
    let url := get md "url" (SStr "") in
    if truthy url then Ok (SStr (py_str title +:+ " - " +:+ py_str url))
    else Ok title
  else if eq_str source_type "github" then
    let repo_name := get md "repo_name" (SStr "Unknown Repository") in
    Ok (SStr ("GitHub: " +:+ py_str repo_name))
  else
    Ok (get md "source" (SStr "Unknown Source")).

Definition nl : string := String "010"%char EmptyString.

(** [text[:n]] *)
Definition str_take (n : nat) (text : string) : string := String.substring 0 n text.

(** The body of the loop of [format_docs] (and of the source list of
    [chat]) for one document. *)
Definition format_doc (doc : Document) : outcome string :=
  match _extract_source_info (metadata doc) with
  | Ok source_info =>
      Ok (page_content doc +:+ nl +:+ "[Source: " +:+ py_str source_info +:+ "]")
  | Raise e => Raise e
  end.

(** A loop that appends one result per element and stops at the first
    exception. *)
Fixpoint for_each {A B : Type} (f : A -> outcome B) (l : list A) : outcome (list B) :=
  match l with
  | [] => Ok []
  | x :: rest =>
      match f x with
      | Ok y =>
          match for_each f rest with
          | Ok ys => Ok (y :: ys)
          | Raise e => Raise e
          end
      | Raise e => Raise e
      end
  end.

(** ["\n\n".join(parts)] *)
Definition join (sep : string) (parts : list string) : string := String.concat sep parts.

(** [format_docs], local to [VitaeAgent._create_rag_chain] *)
Definition format_docs (docs : list Document) : outcome string :=
  match for_each format_doc docs with
  | Ok formatted_docs => Ok (join (nl +:+ nl) formatted_docs)
  | Raise e => Raise e
  end.

(** The human message of the prompt template, filled in. *)
Definition human_prompt (context question : string) : string :=
  "Based on the following context about this professional's background, please answer the user's question. Remember to cite your sources."
  +:+ nl +:+ nl +:+ "Context:" +:+ nl +:+ context +:+ nl +:+ nl
  +:+ "User Question: " +:+ question +:+ nl +:+ nl
  +:+ "Please provide a comprehensive, well-cited response that stays within the bounds of the provided context.".

(** One entry of the [sources] list of [chat]. *)
Definition source_entry (doc : Document) : outcome PyVal :=
  match _extract_source_info (metadata doc) with
  | Ok source_info =>
      let content_preview :=
        if Nat.ltb 200 (String.length (page_content doc))
        then str_take 200 (page_content doc) +:+ "..."
        else page_content doc in
      Ok (VDict (<["source" := VScalar source_info]>
                 (<["content_preview" := VStr content_preview]> ∅)))
  | Raise e => Raise e
  end.

Definition apology : string :=
  "I apologize, but I encountered an error while processing your question. Please try again or rephrase your question.".

(** ** The outside: services and the calls made to them *)

(** One record per call that leaves the process. *)
Inductive Event : Type :=
| EvDetect (text : string)
| EvTranslate (text target_language source_language : string)
| EvEmbedQuery (query : string)
| EvInvoke (system human : string)
| EvPredict (prompt : string)
| EvEmbedDocuments (texts : list string)
| EvAdd (ids : list string).

Definition is_translator_event (ev : Event) : bool :=
  match ev with
  | EvDetect _ | EvTranslate _ _ _ => true
  | _ => false
  end.

Section Agent.

(** The state of the services behind the agent (model server, embedding
    model, translation service) and the embedding vectors. *)
Context {World : Type} {Vec : Type}.

Record State : Type := mkState {
  world : World;
  calls : list Event          (* oldest first *)
}.

(** A computation that may raise and may call a service. *)
Definition Eff (A : Type) : Type := State -> outcome A * State.

Definition ret {A} (a : A) : Eff A := fun s => (Ok a, s).

Definition raise {A} (e : Exn) : Eff A := fun s => (Raise e, s).

Definition bind {A B} (m : Eff A) (k : A -> Eff B) : Eff B :=
  fun s =>
    match m s with
    | (Ok a, s') => k a s'
    | (Raise e, s') => (Raise e, s')
    end.

(** [try: m  except Exception as e: h e] *)
Definition try_except {A} (m : Eff A) (h : Exn -> Eff A) : Eff A :=
  fun s =>
    match m s with
    | (Ok a, s') => (Ok a, s')
    | (Raise e, s') => h e s'
    end.

Definition lift {A} (o : outcome A) : Eff A := fun s => (o, s).

(** A call to a service: recorded, then answered by the service. *)
Definition call {A} (ev : Event) (f : World -> outcome A * World) : Eff A :=
  fun s =>
    let (r, w') := f (world s) in
    (r, {| world := w'; calls := calls s ++ [ev] |}).

(** [d[key]] *)
Definition subscript (d : gmap string string) (key : string) : Eff string :=
  match d !! key with
  | Some v => ret v
  | None => raise (KeyError key)
  end.

Notation "x <- m ;; k" := (bind m (fun x => k))
  (at level 100, m at next level, right associativity, only parsing).

(** The client of the translation service: [detect] and [translate]
    answer with a dictionary, or raise. *)
Record Translator : Type := mkTranslator {
  detect : string -> World -> outcome (gmap string string) * World;
  translate : string -> string -> string -> World ->
              outcome (gmap string string) * World
}.

(** An entry of the persisted collection. *)
Record Entry : Type := mkEntry {
  entry_id : string;
  entry_vector : Vec;
  entry_text : string;
  entry_metadata : gmap string Scalar
}.

(** What [VitaeAgent.__init__] leaves in [self], with the environment
    the process runs in. *)
Record VitaeAgent : Type := mkAgent {
  environ : gmap string string;      (* os.environ *)
  translator : option Translator;    (* self.translator *)
  (* self.retriever: the query is embedded, a step that can raise, and
     the collection is searched in the similarity order [nearer] *)
  embed_query : string -> World -> outcome Vec * World;
  nearer : Vec -> Vec -> Vec -> bool;
  collection : list Entry;
  (* self.llm, as the chain invokes it on the two messages of the prompt
     and as [predict] calls it on a plain text *)
  llm_invoke : string -> string -> World -> outcome string * World;
  llm_predict : string -> World -> outcome string * World;
  system_prompt : string             (* the text of _create_system_prompt *)
}.

(** [os.getenv(name, default)] *)
Definition getenv (self : VitaeAgent) (name dflt : string) : string :=
  default dflt (environ self !! name).

(** Modelled from the spec: the vector index query of section 4.4, which
    the source reaches through the library retriever.  [query(vector, k)]
    returns the [k] nearest entries, most similar first; the similarity
    order is [nearer q a b], [a] at least as near to [q] as [b].  With
    fewer than [k] entries stored it returns them all. *)
Fixpoint insert_nearest (nearer : Vec -> Vec -> Vec -> bool) (q : Vec)
    (e : Entry) (l : list Entry) : list Entry :=
  match l with
  | [] => [e]
  | x :: rest =>
      if nearer q (entry_vector e) (entry_vector x) then e :: l
      else x :: insert_nearest nearer q e rest
  end.

Definition by_similarity (nearer : Vec -> Vec -> Vec -> bool) (q : Vec)
    (l : list Entry) : list Entry :=
  foldr (insert_nearest nearer q) [] l.

Definition index_query (self : VitaeAgent) (q : Vec) (k : nat) : list Entry :=
  take k (by_similarity (nearer self) q (collection self)).

(** [count()] of the same section. *)
Definition count (self : VitaeAgent) : nat := length (collection self).

Definition entry_document (e : Entry) : Document :=
  {| page_content := entry_text e; metadata := entry_metadata e |}.

(** Modelled from the spec: the retriever of section 4.5, built in
    [_init_retriever] with [search_kwargs={"k": 5}].  It embeds the query
    (a call that can raise) and queries the index. *)
Definition get_relevant_documents (self : VitaeAgent) (query : string)
    : Eff (list Document) :=
  v <- call (EvEmbedQuery query) (embed_query self query) ;;
  ret (map entry_document (index_query self v 5)).

(** [self.rag_chain.invoke(question)]: retriever, [format_docs], prompt,
    language model, output as a string. *)
Definition rag_chain_invoke (self : VitaeAgent) (question : string) : Eff string :=
  docs <- get_relevant_documents self question ;;
  context <- lift (format_docs docs) ;;
  let human := human_prompt context question in
  call (EvInvoke (system_prompt self) human)
       (llm_invoke self (system_prompt self) human).

(** [VitaeAgent.translate_text].  The first test, [not self.translator
    or target_language.lower() in ['en', 'english']], is the [None]
    branch and the [is_english] test. *)
Definition translate_text (self : VitaeAgent) (text target_language : string)
    : Eff string :=
  match translator self with
  | None => ret text
  | Some tr =>
      if is_english target_language then ret text
      else
        try_except
          (detection <- call (EvDetect text) (detect tr text) ;;
           source_lang <- subscript detection "language" ;;
           if String.eqb source_lang target_language then ret text
           else
             result <- call (EvTranslate text target_language source_lang)
                            (translate tr text target_language source_lang) ;;
             subscript result "translatedText")
          (fun e => ret text)
  end.

(** [language.lower() not in ['en', 'english'] and self.translator] *)
Definition needs_translation (self : VitaeAgent) (language : string) : bool :=
  negb (is_english language) && bool_decide (is_Some (translator self)).

(** The [try] block of [VitaeAgent.chat]. *)
Definition chat_try (self : VitaeAgent) (query language : string)
    : Eff (gmap string PyVal) :=
  english_query <- (if needs_translation self language
                    then translate_text self query "en"
                    else ret query) ;;
  response <- rag_chain_invoke self english_query ;;
  final_response <- (if needs_translation self language
                     then translate_text self response language
                     else ret response) ;;
  source_docs <- get_relevant_documents self english_query ;;
  sources <- lift (for_each source_entry source_docs) ;;
  ret (<["response" := VStr final_response]>
       (<["sources" := VList sources]>
       (<["original_query" := VStr query]>
       (<["processed_query" := VStr english_query]>
       (<["language" := VStr language]>
       (<["source_count" := VInt (Z.of_nat (length sources))]> ∅)))))).

(** The [except] block of [VitaeAgent.chat]. *)
Definition chat_except (query language : string) (e : Exn) : gmap string PyVal :=
  <["response" := VStr apology]>
  (<["sources" := VList []]>
  (<["original_query" := VStr query]>
  (<["processed_query" := VStr query]>
  (<["language" := VStr language]>
  (<["error" := VStr (str_exn e)]> ∅))))).

(** [VitaeAgent.chat]: it returns a dictionary, never an exception. *)
Definition chat (self : VitaeAgent) (query language : string)
    : State -> gmap string PyVal * State :=
  fun s =>
    match chat_try self query language s with
    | (Ok answer, s') => (answer, s')
    | (Raise e, s') => (chat_except query language e, s')
    end.

(** [VitaeAgent.health_check].  [status] is updated in place inside the
    [try] block, so what was set before an exception stays set. *)
Definition health_check (self : VitaeAgent) : State -> gmap string PyVal * State :=
  fun s =>
    let status : gmap string PyVal :=
      <["retriever_ready" := VBool false]>
      (<["llm_ready" := VBool false]>
      (<["database_count" := VInt 0]>
      (<["translator_available" := VBool (bool_decide (is_Some (translator self)))]>
      (<["model_provider" := VStr (getenv self "MODEL_PROVIDER" "ollama")]>
      (<["embedding_provider" := VStr (getenv self "EMBEDDING_PROVIDER" "local")]> ∅))))) in
    match get_relevant_documents self "test" s with
    | (Raise e, s1) => (<["error" := VStr (str_exn e)]> status, s1)
    | (Ok test_results, s1) =>
        let status1 :=
          <["database_count" := VInt (Z.of_nat (length test_results))]>
          (<["retriever_ready" := VBool true]> status) in
        match call (EvPredict "Hello") (llm_predict self "Hello") s1 with
        | (Raise e, s2) => (<["error" := VStr (str_exn e)]> status1, s2)
        | (Ok test_response, s2) =>
            (<["llm_ready" := VBool (Nat.ltb 0 (String.length test_response))]> status1, s2)
        end
    end.

End Agent.

Arguments State : clear implicits.
Arguments VitaeAgent : clear implicits.
Arguments Translator : clear implicits.
Arguments Entry : clear implicits.

(** ** Whitespace *)

(** [c.isspace()] for the characters a [string] holds. *)
Definition is_space (c : ascii) : bool :=
  let n := nat_of_ascii c in
  (Nat.leb 9 n && Nat.leb n 13) || (Nat.leb 28 n && Nat.leb n 32)
  || Nat.eqb n 133 || Nat.eqb n 160.

(** [text.lstrip()], [text.rstrip()] and [text.strip()] *)
Fixpoint lstrip (text : string) : string :=
  match text with
  | EmptyString => EmptyString
  | String c rest => if is_space c then lstrip rest else text
  end.

Fixpoint rstrip (text : string) : string :=
  match text with
  | EmptyString => EmptyString
  | String c rest =>
      match rstrip rest with
      | EmptyString => if is_space c then EmptyString else String c EmptyString
      | kept => String c kept
      end
  end.

Definition strip (text : string) : string := rstrip (lstrip text).

(** A text of whitespace only (the empty text is one). *)
Fixpoint all_space (text : string) : bool :=
  match text with
  | EmptyString => true
  | String c rest => is_space c && all_space rest
  end.

(** ** The chunker

    The splitter is a library class; the source holds its configuration
    and the call to [split_documents].  What it computes is modelled from
    section 4.2 of the specification. *)

(** The configuration of a splitter: [chunk_size], [chunk_overlap] and the
    prioritized [separators]; lengths are measured by [len]. *)
Record TextSplitter : Type := mkSplitter {
  chunk_size : nat;
  chunk_overlap : nat;
  separators : list string
}.

(** [self.text_splitter] of [DataIngestionEngine.__init__]. *)
Definition text_splitter : TextSplitter :=
  {| chunk_size := 1000;
     chunk_overlap := 200;
     separators := [nl +:+ nl; nl; " "; ""] |}.

(** The characters of a text, each as a text. *)
Fixpoint chars (text : string) : list string :=
  match text with
  | EmptyString => []
  | String c rest => String c EmptyString :: chars rest
  end.

(** Whether [sep] occurs in [text]. *)
Fixpoint occurs (sep text : string) : bool :=
  String.prefix sep text ||
  match text with
  | EmptyString => false
  | String _ rest => occurs sep rest
  end.

(** Cutting [text] at the occurrences of a non-empty [sep], left to right
    and without overlap; each occurrence stays at the head of the piece
    that follows it.  [skip] counts the characters of the occurrence just
    found that are still to be passed, [cur] is the piece being read. *)
Fixpoint split_keep (sep : string) (skip : nat) (cur text : string) : list string :=
  match text with
  | EmptyString => [cur]
  | String c rest =>
      match skip with
      | S k => split_keep sep k (cur +:+ String c EmptyString) rest
      | O =>
          if String.prefix sep text
          then cur :: split_keep sep (String.length sep - 1) (String c EmptyString) rest
          else split_keep sep 0 (cur +:+ String c EmptyString) rest
      end
  end.

Definition nonempty (s : string) : bool := negb (String.eqb s "").

(** Modelled from the spec: the separator boundaries of section 4.2.
    The pieces of [text] at the boundary [sep]; the empty separator cuts
    between any two characters.  Empty pieces are dropped. *)
Definition split_on (sep text : string) : list string :=
  List.filter nonempty
    (if String.eqb sep "" then chars text else split_keep sep 0 "" text).

(** Length of the text a window of pieces joins to. *)
Definition total_len (pieces : list string) : nat :=
  foldr (fun p n => String.length p + n) 0 pieces.

(** Modelled from the spec: the overlap of adjacent chunks, section 4.2.
    The window [cur] is full and a piece of length [len] comes next: pieces
    leave the window from the front until what stays is no longer than the
    overlap and leaves room for the next piece. *)
Fixpoint drop_overlap (ts : TextSplitter) (len : nat) (cur : list string) : list string :=
  match cur with
  | [] => []
  | _ :: rest =>
      if Nat.ltb (chunk_overlap ts) (total_len cur)
         || (Nat.ltb (chunk_size ts) (total_len cur + len) && Nat.ltb 0 (total_len cur))
      then drop_overlap ts len rest
      else cur
  end.

(** The chunk a window joins to, without the whitespace around it, as
    the splitter of the library returns it; an empty window gives none,
    nor does a window of whitespace. *)
Definition emit (cur : list string) : list string :=
  match cur with
  | [] => []
  | _ =>
      let text := strip (join "" cur) in
      if nonempty text then [text] else []
  end.

(** Modelled from the spec: chunks under a maximum size, section 4.2.
    Pieces are gathered into windows of at most [chunk_size]; a window that
    the next piece would overfill is emitted, and its tail within
    [chunk_overlap] opens the next window. *)
Fixpoint merge_loop (ts : TextSplitter) (cur pieces : list string) : list string :=
  match pieces with
  | [] => emit cur
  | d :: rest =>
      if Nat.ltb (chunk_size ts) (total_len cur + String.length d)
      then emit cur ++ merge_loop ts (drop_overlap ts (String.length d) cur ++ [d]) rest
      else merge_loop ts (cur ++ [d]) rest
  end.

Definition merge_splits (ts : TextSplitter) (pieces : list string) : list string :=
  merge_loop ts [] pieces.

(** The windows [merge_loop] goes through, one after the other: the
    chunks are what they emit. *)
Fixpoint merge_windows (ts : TextSplitter) (cur pieces : list string)
    : list (list string) :=
  match pieces with
  | [] => [cur]
  | d :: rest =>
      if Nat.ltb (chunk_size ts) (total_len cur + String.length d)
      then cur :: merge_windows ts (drop_overlap ts (String.length d) cur ++ [d]) rest
      else merge_windows ts (cur ++ [d]) rest
  end.

(** Modelled from the spec: the recursion of section 4.2 on one cut.
    The pieces of one cut, in order: runs of pieces shorter than
    [chunk_size] are merged, a longer piece is cut [further]. *)
Fixpoint regroup (ts : TextSplitter) (further : string -> list string)
    (good splits : list string) : list string :=
  match splits with
  | [] => merge_splits ts good
  | s :: rest =>
      if Nat.ltb (String.length s) (chunk_size ts)
      then regroup ts further (good ++ [s]) rest
      else merge_splits ts good ++ further s ++ regroup ts further [] rest
  end.

(** Modelled from the spec: the chunker of section 4.2, which the source
    takes from a library and only configures.  The text is cut at the first
    separator of the list that occurs in it (the empty separator always
    does); pieces under the maximum size are merged into overlapping
    windows, longer ones are cut again with the separators that follow.
    With no separator left a piece stays whole. *)
Fixpoint split_text (ts : TextSplitter) (seps : list string) (text : string)
    {struct seps} : list string :=
  match seps with
  | [] => if nonempty text then [text] else []
  | sep :: rest =>
      if String.eqb sep ""
      then regroup ts (fun s => [s]) [] (split_on sep text)
      else if occurs sep text
      then regroup ts (split_text ts rest) [] (split_on sep text)
      else split_text ts rest text
  end.

(** Modelled from the spec: [split(documents)] of section 4.2; every chunk
    carries the metadata of its document unchanged. *)
Definition split_documents (ts : TextSplitter) (documents : list Document)
    : list Document :=
  flat_map
    (fun doc =>
       map (fun chunk => {| page_content := chunk; metadata := metadata doc |})
           (split_text ts (separators ts) (page_content doc)))
    documents.

(** ** Storing the chunks *)

(** [range(0, n, step)] *)
Definition range_step (n step : nat) : list nat :=
  map (fun j => j * step) (seq 0 ((n + step - 1) / step)).

(** [l[i:j]] for [i <= j] *)
Definition slice {A : Type} (i j : nat) (l : list A) : list A :=
  take (j - i) (drop i l).

(** [ids = [f"chunk_{i}" for i in range(len(chunks))]] *)
Definition chunk_id (i : nat) : string := "chunk_" +:+ str_nat i.

Definition chunk_ids (chunks : list Document) : list string :=
  map chunk_id (seq 0 (length chunks)).

(** What one round of the storing loop sends to the collection. *)
Record Batch : Type := mkBatch {
  batch_texts : list string;
  batch_metadatas : list (gmap string Scalar);
  batch_ids : list string
}.

Definition batch_size : nat := 100.

(** The rounds of the loop of [process_and_store_documents], in order. *)
Definition batches (chunks : list Document) : list Batch :=
  let texts := map page_content chunks in
  let metadatas := map metadata chunks in
  let ids := chunk_ids chunks in
  map (fun i =>
         {| batch_texts := slice i (i + batch_size) texts;
            batch_metadatas := slice i (i + batch_size) metadatas;
            batch_ids := slice i (i + batch_size) ids |})
      (range_step (length texts) batch_size).

Section Ingestion.

Context {World : Type} {Vec : Type}.

Notation "x <- m ;; k" := (bind m (fun x => k))
  (at level 100, m at next level, right associativity, only parsing).

(** The embedding model and the collection the engine writes to; both
    are outside the process and either call can raise. *)
Record DataIngestionEngine : Type := mkEngine {
  embed_documents : list string -> World -> outcome (list Vec) * World;
  collection_add : Batch -> list Vec -> World -> outcome unit * World
}.

(** One round: embed, add; an exception ends the round only. *)
Definition store_batch (self : DataIngestionEngine) (b : Batch) : @Eff World unit :=
  try_except
    (embeddings <- call (EvEmbedDocuments (batch_texts b))
                        (embed_documents self (batch_texts b)) ;;
     call (EvAdd (batch_ids b)) (collection_add self b embeddings))
    (fun e => ret tt).

Fixpoint store_batches (self : DataIngestionEngine) (bs : list Batch) : @Eff World unit :=
  match bs with
  | [] => ret tt
  | b :: rest => _ <- store_batch self b ;; store_batches self rest
  end.

(** [DataIngestionEngine.process_and_store_documents] *)
Definition process_and_store_documents (self : DataIngestionEngine)
    (documents : list Document) : @Eff World unit :=
  match documents with
  | [] => ret tt
  | _ =>
      let chunks := split_documents text_splitter documents in
      store_batches self (batches chunks)
  end.

End Ingestion.

Arguments DataIngestionEngine : clear implicits.

(** ** Concrete agents

    Small instances of the records above, on which the functions are run:
    the outside has no state of its own ([unit]) and an embedding is a
    number, nearer to another the smaller their distance. *)

Definition near (q a b : nat) : bool :=
  Nat.leb (Nat.max q a - Nat.min q a) (Nat.max q b - Nat.min q b).

Definition notes_metadata : gmap string Scalar :=
  <["source_type" := SStr "text"]> (<["source" := SStr "notes.txt"]> ∅).

Definition stored_entry (i : nat) : Entry nat :=
  {| entry_id := chunk_id i;
     entry_vector := i;
     entry_text := "note " +:+ str_nat i;
     entry_metadata := notes_metadata |}.

(** A translation client that answers, and one whose service is down. *)
Definition working_translator : Translator unit :=
  {| detect := fun text w => (Ok (<["language" := "en"]> ∅), w);
     translate := fun text target source w =>
                    (Ok (<["translatedText" := "[" +:+ target +:+ "] " +:+ text]> ∅), w) |}.

Definition broken_translator : Translator unit :=
  {| detect := fun text w => (Raise (External "503 Service Unavailable"), w);
     translate := fun text target source w =>
                    (Raise (External "503 Service Unavailable"), w) |}.

(** A translation service that detects French, and one that detects but
    fails to translate. *)
Definition french_detector : Translator unit :=
  {| detect := fun text w => (Ok (<["language" := "fr"]> ∅), w);
     translate := fun text target source w =>
                    (Ok (<["translatedText" := "[" +:+ target +:+ "] " +:+ text]> ∅), w) |}.

Definition half_translator : Translator unit :=
  {| detect := fun text w => (Ok (<["language" := "en"]> ∅), w);
     translate := fun text target source w =>
                    (Raise (External "quota exceeded"), w) |}.

(** An agent over [n] stored entries whose services all answer. *)
Definition working_agent (n : nat) (tr : option (Translator unit)) : VitaeAgent unit nat :=
  {| environ := ∅;
     translator := tr;
     embed_query := fun query w => (Ok 0, w);
     nearer := near;
     collection := map stored_entry (seq 0 n);
     llm_invoke := fun system human w => (Ok "I worked on it [Source: notes.txt].", w);
     llm_predict := fun prompt w => (Ok "Hello!", w);
     system_prompt := "You are the VitaeAgent." |}.

(** The same agent with the embedding model unreachable. *)
Definition failing_agent (n : nat) : VitaeAgent unit nat :=
  {| environ := ∅;
     translator := None;
     embed_query := fun query w => (Raise (External "embedding model unreachable"), w);
     nearer := near;
     collection := map stored_entry (seq 0 n);
     llm_invoke := fun system human w => (Ok "I worked on it [Source: notes.txt].", w);
     llm_predict := fun prompt w => (Ok "Hello!", w);
     system_prompt := "You are the VitaeAgent." |}.

Definition start : State unit := {| world := tt; calls := [] |}.

(** A splitter with the separators of the engine and windows of ten
    characters overlapping by three, to run the chunker on short texts. *)
Definition small_splitter : TextSplitter :=
  {| chunk_size := 10; chunk_overlap := 3; separators := [nl +:+ nl; nl; " "; ""] |}.

(** An engine whose collection refuses every batch. *)
Definition refusing_engine : DataIngestionEngine unit nat :=
  {| embed_documents := fun texts w => (Ok (map String.length texts), w);
     collection_add := fun b embeddings w => (Raise (External "disk full"), w) |}.

(** The six fields of an Answer. *)
Definition answer_fields : list string :=
  ["response"; "sources"; "original_query"; "processed_query"; "language";
   "source_count"].

Definition has_fields (fields : list string) (d : gmap string PyVal) : Prop :=
  Forall (fun k => is_Some (d !! k)) fields.

(** The agent with another translator in its place. *)
Definition with_translator {World Vec : Type} (tr : option (Translator World))
    (self : VitaeAgent World Vec) : VitaeAgent World Vec :=
  {| environ := environ self;
     translator := tr;
     embed_query := embed_query self;
     nearer := nearer self;
     collection := collection self;
     llm_invoke := llm_invoke self;
     llm_predict := llm_predict self;
     system_prompt := system_prompt self |}.

(** A text that stands, in one piece, somewhere in another. *)
Definition part_of (chunk text : string) : Prop :=
  exists before after, text = before +:+ chunk +:+ after.

(** Whether the last [n] characters of [a] are the first [n] of [b]. *)
Definition overlap_by (n : nat) (a b : string) : bool :=
  Nat.leb n (String.length a) && Nat.leb n (String.length b)
  && String.eqb (String.substring (String.length a - n) n a) (String.substring 0 n b).

(** [n] times the character [c]. *)
Definition repeated (c : ascii) (n : nat) : string :=
  string_of_list_ascii (repeat c n).

(** Two paragraphs of 600 characters, with nothing in common. *)
Definition two_paragraphs : Document :=
  {| page_content := repeated "a" 600 +:+ nl +:+ nl +:+ repeated "b" 600;
     metadata := <["source_type" := SStr "text"]> (<["source" := SStr "notes.txt"]> ∅) |}.

(** A text within the maximum size of a splitter. *)
Definition fits (ts : TextSplitter) (chunk : string) : Prop :=
  String.length chunk <= chunk_size ts.

(** A computation that records no call to the translator. *)
Definition silent {World A : Type} (m : @Eff World A) : Prop :=
  forall s, List.filter is_translator_event (calls (m s).2)
            = List.filter is_translator_event (calls s).

(** ** Model configuration: [ModelConfig] and the start of the engine *)

(** [str.lower] on every character a [string] holds: the letters A-Z and
    the upper-case letters of Latin-1 (the multiplication sign, 215, has
    no case). *)
Definition py_lower_char (c : ascii) : ascii :=
  let n := nat_of_ascii c in
  if (Nat.leb 65 n && Nat.leb n 90)
     || (Nat.leb 192 n && Nat.leb n 222 && negb (Nat.eqb n 215))
  then ascii_of_nat (n + 32) else c.

Fixpoint py_lower (s : string) : string :=
  match s with
  | EmptyString => EmptyString
  | String c rest => String (py_lower_char c) (py_lower rest)
  end.

(** The two exceptions configuration raises. *)
Inductive StartError : Type :=
| ValueError (msg : string)
| ConnectionError (msg : string).

Inductive startup (A : Type) : Type :=
| Started (a : A)
| Refused (e : StartError).
Arguments Started {A} a.
Arguments Refused {A} e.

(** The chat models and the embedding models the configuration can
    build, with the arguments that vary; the temperature and the encoding
    options are the same constants in every case. *)
Inductive ChatModel : Type :=
| ChatOpenAI (model_name openai_api_key : string)
| ChatOllama (model base_url : string).

Inductive EmbeddingModel : Type :=
| OpenAIEmbeddings (openai_api_key : string)
| HuggingFaceEmbeddings (model_name : string).

(** [os.getenv(name, default)] on an environment. *)
Definition env_get (env : gmap string string) (name dflt : string) : string :=
  default dflt (env !! name).

Definition ollama_unreachable (base_url : string) : StartError :=
  ConnectionError ("Cannot connect to Ollama at " +:+ base_url
                   +:+ ". Make sure Ollama is running.").

(** [ModelConfig.get_llm].  [http_get url] is [requests.get(url,
    timeout=5)]: the status code of the response, or an exception. *)
Definition get_llm {World : Type} (env : gmap string string)
    (http_get : string -> World -> outcome Z * World) (w : World)
    : startup ChatModel * World :=
  let provider := py_lower (env_get env "MODEL_PROVIDER" "ollama") in
  if String.eqb provider "openai" then
    match env !! "OPENAI_API_KEY" with
    | Some api_key =>
        if String.eqb api_key ""
        then (Refused (ValueError "OPENAI_API_KEY is required when using OpenAI provider"), w)
        else (Started (ChatOpenAI "gpt-4" api_key), w)
    | None =>
        (Refused (ValueError "OPENAI_API_KEY is required when using OpenAI provider"), w)
    end
  else if String.eqb provider "ollama" then
    let base_url := env_get env "OLLAMA_BASE_URL" "http://localhost:11434" in
    let model_name := env_get env "OLLAMA_MODEL" "llama3.1:8b" in
    match http_get (base_url +:+ "/api/tags") w with
    | (Ok status_code, w') =>
        if (status_code =? 200)%Z
        then (Started (ChatOllama model_name base_url), w')
        else (Refused (ollama_unreachable base_url), w')
    | (Raise e, w') => (Refused (ollama_unreachable base_url), w')
    end
  else (Refused (ValueError ("Unsupported model provider: " +:+ provider)), w).

(** [ModelConfig.get_embeddings] *)
Definition get_embeddings (env : gmap string string) : startup EmbeddingModel :=
  let provider := py_lower (env_get env "EMBEDDING_PROVIDER" "local") in
  if String.eqb provider "openai" then
    match env !! "OPENAI_API_KEY" with
    | Some api_key =>
        if String.eqb api_key ""
        then Refused (ValueError "OPENAI_API_KEY is required when using OpenAI embeddings")
        else Started (OpenAIEmbeddings api_key)
    | None =>
        Refused (ValueError "OPENAI_API_KEY is required when using OpenAI embeddings")
    end
  else if String.eqb provider "local" then
    Started (HuggingFaceEmbeddings (env_get env "LOCAL_EMBEDDING_MODEL" "all-MiniLM-L6-v2"))
  else Refused (ValueError ("Unsupported embedding provider: " +:+ provider)).

(** The embeddings of [DataIngestionEngine.__init__]. *)
Definition engine_embeddings (env : gmap string string) : startup EmbeddingModel :=
  let embedding_provider := py_lower (env_get env "EMBEDDING_PROVIDER" "local") in
  if String.eqb embedding_provider "openai" then
    match env !! "OPENAI_API_KEY" with
    | Some api_key =>
        if String.eqb api_key ""
        then Refused (ValueError "OPENAI_API_KEY is required when using OpenAI embeddings")
        else Started (OpenAIEmbeddings api_key)
    | None =>
        Refused (ValueError "OPENAI_API_KEY is required when using OpenAI embeddings")
    end
  else
    Started (HuggingFaceEmbeddings (env_get env "LOCAL_EMBEDDING_MODEL" "all-MiniLM-L6-v2")).

(** An Ollama server that answers 200, one that answers 500 and one
    that cannot be reached. *)
Definition server_up (url : string) (w : unit) : outcome Z * unit := (Ok 200%Z, w).
Definition server_error (url : string) (w : unit) : outcome Z * unit := (Ok 500%Z, w).
Definition server_down (url : string) (w : unit) : outcome Z * unit :=
  (Raise (External "Connection refused"), w).

(** ** The web layer: the endpoints of [main.py] *)

(** Truth value of a value of a result dictionary. *)
Definition py_truthy (v : PyVal) : bool :=
  match v with
  | VScalar x => truthy x
  | VList l => match l with [] => false | _ => true end
  | VDict d => negb (bool_decide (d = ∅))
  end.

(** What an endpoint gives back: the body of a 200 response, or the
    [HTTPException] it raised, which the handler turns into the response
    of that status. *)
Inductive Reply : Type :=
| Success (body : gmap string PyVal)
| HTTPException (status_code : Z) (detail : string).

Definition is_dict (v : PyVal) : bool :=
  match v with
  | VDict _ => true
  | _ => false
  end.

(** [ChatResponse] built from the keys of [result], as the endpoint
    does: the five required fields must be there,
    [sources] defaults to the empty list, keys that are no field are
    dropped.  The values [chat] builds have the declared types and are
    kept as they are; a value of another type is taken as a validation
    error.  [None] stands for that error, whose text the endpoint never
    uses. *)
Definition chat_response (result : gmap string PyVal) : option (gmap string PyVal) :=
  match result !! "response", result !! "original_query",
        result !! "processed_query", result !! "language",
        result !! "source_count" with
  | Some (VStr response), Some (VStr original_query),
    Some (VStr processed_query), Some (VStr language),
    Some (VInt source_count) =>
      match default (VList []) (result !! "sources") with
      | VList sources =>
          if forallb is_dict sources
          then Some (<["response" := VStr response]>
                     (<["sources" := VList sources]>
                     (<["original_query" := VStr original_query]>
                     (<["processed_query" := VStr processed_query]>
                     (<["language" := VStr language]>
                     (<["source_count" := VInt source_count]> ∅))))))
          else None
      | _ => None
      end
  | _, _, _, _, _ => None
  end.

(** The response of the health endpoint. *)
Record HealthResponse : Type := mkHealth {
  status : string;
  components : gmap string PyVal;
  version : string
}.

Section Endpoints.

Context {World : Type} {Vec : Type}.

(** The [chat] endpoint; [agent] is the global of the module, [None]
    until the application has started. *)
Definition chat_endpoint (agent : option (VitaeAgent World Vec))
    (query language : string) : State World -> Reply * State World :=
  fun s =>
    match agent with
    | None => (HTTPException 503 "VitaeAgent is not initialized", s)
    | Some a =>
        if String.eqb (strip query) ""
        then (HTTPException 400 "Query cannot be empty", s)
        else
          let (result, s') := chat a query language s in
          if bool_decide (is_Some (result !! "error"))
          then (HTTPException 500 "An error occurred while processing your request", s')
          else
            match chat_response result with
            | Some body => (Success body, s')
            | None => (HTTPException 500 "An unexpected error occurred", s')
            end
    end.

(** The [health_check] endpoint.  [VitaeAgent.health_check] does not
    raise, so the handler of the endpoint for exceptions has nothing to
    catch. *)
Definition health_endpoint (agent : option (VitaeAgent World Vec))
    : State World -> HealthResponse * State World :=
  fun s =>
    match agent with
    | None =>
        ({| status := "unhealthy";
            components := <["agent" := VStr "not_initialized"]> ∅;
            version := "1.0.0" |}, s)
    | Some a =>
        let (health_data, s') := health_check a s in
        let overall_status := "healthy" in
        let overall_status :=
          if negb (py_truthy (default (VBool false) (health_data !! "retriever_ready")))
             || negb (py_truthy (default (VBool false) (health_data !! "llm_ready")))
          then "degraded" else overall_status in
        let overall_status :=
          if bool_decide (is_Some (health_data !! "error"))
          then "unhealthy" else overall_status in
        ({| status := overall_status; components := health_data; version := "1.0.0" |},
         s')
    end.

(** The [get_stats] endpoint; as for the health endpoint, the handler
    for exceptions has nothing to catch. *)
Definition get_stats (agent : option (VitaeAgent World Vec))
    : State World -> Reply * State World :=
  fun s =>
    match agent with
    | None => (HTTPException 503 "VitaeAgent is not initialized", s)
    | Some a =>
        let (health_data, s') := health_check a s in
        (Success
           (<["knowledge_base_size" := default (VInt 0) (health_data !! "database_count")]>
            (<["retriever_status" :=
                 VStr (if py_truthy (default (VBool false)
                                       (health_data !! "retriever_ready"))
                       then "ready" else "not_ready")]>
            (<["llm_status" :=
                 VStr (if py_truthy (default (VBool false) (health_data !! "llm_ready"))
                       then "ready" else "not_ready")]>
            (<["translation_available" :=
                 default (VBool false) (health_data !! "translator_available")]>
            (<["api_version" := VStr "1.0.0"]> ∅))))),
         s')
    end.

End Endpoints.

(** ** Loading the sources *)

(** [doc.metadata.update({"source": name, "source_type": source_type,
    "file_path": path})] *)
Definition tag_document (source_type name path : string) (doc : Document) : Document :=
  {| page_content := page_content doc;
     metadata := <["source" := SStr name]>
                 (<["source_type" := SStr source_type]>
                 (<["file_path" := SStr path]> (metadata doc))) |}.

Section Loaders.

Context {World : Type}.

(** The loop of [load_pdf_documents] and of [load_text_documents] over
    the files the glob found, given by name: the file is loaded, which can
    raise, its documents are tagged and kept; a file that cannot be loaded
    is left out.  The path of a file is its name under the data
    directory. *)
Fixpoint load_files (source_type : string)
    (load : string -> World -> outcome (list Document) * World)
    (names : list string) (w : World) : list Document * World :=
  match names with
  | [] => ([], w)
  | name :: rest =>
      let path := "data/" +:+ name in
      match load path w with
      | (Ok docs, w1) =>
          let (more, w2) := load_files source_type load rest w1 in
          ((map (tag_document source_type name path) docs ++ more)%list, w2)
      | (Raise e, w1) => load_files source_type load rest w1
      end
  end.

(** [DataIngestionEngine.load_pdf_documents]; [pdf_files] is the result
    of the glob for [*.pdf] and [pdf_loader] the library loader, which
    returns one document per page. *)
Definition load_pdf_documents
    (pdf_loader : string -> World -> outcome (list Document) * World)
    (pdf_files : list string) : World -> list Document * World :=
  load_files "pdf" pdf_loader pdf_files.

(** [DataIngestionEngine.load_text_documents], over the results of the
    globs for [*.txt] and [*.md]. *)
Definition load_text_documents
    (text_loader : string -> World -> outcome (list Document) * World)
    (txt_files md_files : list string) : World -> list Document * World :=
  load_files "text" text_loader (txt_files ++ md_files)%list.






(** [get_agent]: the module keeps one agent, built on first use;
    [construct] is [VitaeAgent()].  The result is what is returned or
    raised, the value of the global afterwards, and the outside. *)
Definition get_agent {Agent : Type} (construct : World -> outcome Agent * World)
    (_agent_instance : option Agent) (w : World)
    : outcome Agent * option Agent * World :=
  match _agent_instance with
  | Some agent => (Ok agent, Some agent, w)
  | None =>
      match construct w with
      | (Ok agent, w') => (Ok agent, Some agent, w')
      | (Raise e, w') => (Raise e, None, w')
      end
  end.

End Loaders.

(** The urls of [blog_urls.txt], as [run_ingestion] reads them:
    [[line.strip() for line in f if line.strip()]]. *)
Definition read_blog_urls (lines : list string) : list string :=
  map strip (List.filter (fun line => nonempty (strip line)) lines).

(** The ids the collection was given, in the order of the calls. *)
Definition added_ids (evs : list Event) : list string :=
  flat_map (fun ev => match ev with EvAdd ids => ids | _ => [] end) evs.

(** The texts the embedding model was given, call by call. *)
Definition embedded_texts (evs : list Event) : list (list string) :=
  flat_map (fun ev => match ev with EvEmbedDocuments texts => [texts] | _ => [] end) evs.

(** A pdf loader that finds two pages in every file, and one that fails
    on [broken.pdf]. *)
Definition two_pages (path : string) (w : unit) : outcome (list Document) * unit :=
  (Ok [mkDocument "page one" (<["source" := SStr path]> (<["page" := SInt 0]> ∅));
       mkDocument "page two" (<["source" := SStr path]> (<["page" := SInt 1]> ∅))], w).

Definition fails_on_broken (path : string) (w : unit) : outcome (list Document) * unit :=
  if String.eqb path "data/broken.pdf" then (Raise (External "EOF marker not found"), w)
  else two_pages path w.


(** An engine whose embedding model and collection both answer. *)
Definition accepting_engine : DataIngestionEngine unit nat :=
  {| embed_documents := fun texts w => (Ok (map String.length texts), w);
     collection_add := fun b embeddings w => (Ok tt, w) |}.

(** An engine whose embedding model fails on the round that begins with
    the text [0], and answers otherwise. *)
Definition first_round_fails : DataIngestionEngine unit nat :=
  {| embed_documents := fun texts w =>
       if bool_decide (head texts = Some "0")
       then (Raise (External "timeout"), w)
       else (Ok (map String.length texts), w);
     collection_add := fun b embeddings w => (Ok tt, w) |}.

(** A computation that only adds to the record of calls. *)
Definition grows {World A : Type} (m : @Eff World A) : Prop :=
  forall s, exists new, calls (m s).2 = (calls s ++ new)%list.

(** The dictionary the [try] block of [chat] returns. *)
Definition success_answer (final_response : string) (sources : list PyVal)
    (query language : string) : gmap string PyVal :=
  <["response" := VStr final_response]>
  (<["sources" := VList sources]>
  (<["original_query" := VStr query]>
  (<["processed_query" := VStr query]>
  (<["language" := VStr language]>
  (<["source_count" := VInt (Z.of_nat (length sources))]> ∅))))).

(** * Properties *)

(** ** Source labels *)

Lemma eq_str_true (v : Scalar) (literal : string) :
  eq_str v literal = true <-> v = SStr literal.
Proof.
  destruct v; simpl; try (split; [discriminate | congruence]).
  rewrite String.eqb_eq. split; congruence.
Qed.

Lemma eq_str_false (v : Scalar) (literal : string) :
  eq_str v literal = false <-> v <> SStr literal.
Proof.
  rewrite <- eq_str_true. destruct (eq_str v literal); split; congruence.
Qed.

Lemma nonempty_true (s : string) : nonempty s = true <-> s <> "".
Proof.
  unfold nonempty. rewrite negb_true_iff. apply String.eqb_neq.
Qed.

(** C3: the label of a chunk follows its [source_type].  A PDF chunk
    with a source [s] and an integer page [p] is labelled [s, Page p+1],
    so [{source: cv.pdf, page: 2}] gives [cv.pdf, Page 3]; a text chunk
    is labelled with its source; a blog chunk with a title and a
    non-empty url is labelled [title - url]; a github chunk with
    [repo_name] [r] is labelled [GitHub: r], so [vitae-agent] gives
    [GitHub: vitae-agent]; with any other source type, or none, the label
    is the raw [source] field, and [Unknown Source] when there is none. *)
Theorem source_label_per_type (md : gmap string Scalar) :
  (forall s p,
      md !! "source_type" = Some (SStr "pdf") ->
      md !! "source" = Some (SStr s) ->
      md !! "page" = Some (SInt p) ->
      _extract_source_info md = Ok (SStr (s +:+ ", Page " +:+ str_int (p + 1)))) /\
  (forall src,
      md !! "source_type" = Some (SStr "text") ->
      md !! "source" = Some src ->
      _extract_source_info md = Ok src) /\
  (forall t u,
      md !! "source_type" = Some (SStr "blog") ->
      md !! "title" = Some (SStr t) ->
      md !! "url" = Some (SStr u) ->
      u <> "" ->
      _extract_source_info md = Ok (SStr (t +:+ " - " +:+ u))) /\
  (forall r,
      md !! "source_type" = Some (SStr "github") ->
      md !! "repo_name" = Some (SStr r) ->
      _extract_source_info md = Ok (SStr ("GitHub: " +:+ r))) /\
  ((forall st, md !! "source_type" = Some st ->
               st <> SStr "pdf" /\ st <> SStr "text" /\
               st <> SStr "blog" /\ st <> SStr "github") ->
   _extract_source_info md = Ok (default (SStr "Unknown Source") (md !! "source"))) /\
  _extract_source_info
    (<["source_type" := SStr "pdf"]>
       (<["source" := SStr "cv.pdf"]> (<["page" := SInt 2]> ∅)))
  = Ok (SStr "cv.pdf, Page 3") /\
  _extract_source_info
    (<["source_type" := SStr "github"]> (<["repo_name" := SStr "vitae-agent"]> ∅))
  = Ok (SStr "GitHub: vitae-agent").
Proof.
  repeat split.
  - intros s p Ht Hs Hp. unfold _extract_source_info, get.
    rewrite Ht, Hs, Hp. reflexivity.
  - intros src Ht Hs. unfold _extract_source_info, get.
    rewrite Ht, Hs. reflexivity.
  - intros t u Ht Hti Hu Hne. unfold _extract_source_info, get.
    rewrite Ht, Hti, Hu. simpl.
    apply nonempty_true in Hne. unfold nonempty in Hne. rewrite Hne.
    reflexivity.
  - intros r Ht Hr. unfold _extract_source_info, get.
    rewrite Ht, Hr. reflexivity.
  - intros Hst. unfold _extract_source_info.
    assert (Hother : forall lit, In lit ["pdf"; "text"; "blog"; "github"] ->
                       eq_str (get md "source_type" (SStr "unknown")) lit = false).
    { intros lit Hin. apply eq_str_false. unfold get.
      destruct (md !! "source_type") as [st|] eqn:E; simpl.
      - destruct (Hst st eq_refl) as (H1 & H2 & H3 & H4).
        destruct Hin as [<-|[<-|[<-|[<-|[]]]]]; assumption.
      - destruct Hin as [<-|[<-|[<-|[<-|[]]]]]; discriminate. }
    rewrite !Hother by (simpl; tauto). reflexivity.
Qed.

(** C3 on the metadata of a blog post and of a chunk with no source
    type. *)
Lemma source_label_per_type_witness :
  _extract_source_info
    (<["source_type" := SStr "blog"]>
       (<["title" := SStr "On Proofs"]>
          (<["url" := SStr "https://example.org/proofs"]> ∅)))
  = Ok (SStr "On Proofs - https://example.org/proofs") /\
  _extract_source_info (<["page" := SInt 4]> ∅) = Ok (SStr "Unknown Source").
Proof.
  split.
  - apply (proj1 (proj2 (proj2 (source_label_per_type
             (<["source_type" := SStr "blog"]>
                (<["title" := SStr "On Proofs"]>
                   (<["url" := SStr "https://example.org/proofs"]> ∅))))))
             "On Proofs" "https://example.org/proofs");
      [reflexivity | reflexivity | reflexivity | discriminate].
  - rewrite (proj1 (proj2 (proj2 (proj2 (proj2
               (source_label_per_type (<["page" := SInt 4]> ∅))))))).
    + reflexivity.
    + intros st Hst. vm_compute in Hst. discriminate.
Defined.

(** ** The orchestrator boundary *)

Section ChatProperties.

Context {World : Type} {Vec : Type}.
Implicit Types (self : VitaeAgent World Vec) (s : State World).

(** Translating towards English is the identity and calls nothing. *)
Lemma translate_text_to_english self text s :
  translate_text self text "en" s = (Ok text, s).
Proof.
  unfold translate_text. destruct (translator self); reflexivity.
Qed.

(** So the query the chain sees is the query as it came. *)
Lemma english_query_unchanged self query language s :
  (if needs_translation self language
   then translate_text self query "en" else ret query) s = (Ok query, s).
Proof.
  destruct (needs_translation self language).
  - apply translate_text_to_english.
  - reflexivity.
Qed.

Lemma chat_try_steps self query language s :
  chat_try self query language s =
  bind (rag_chain_invoke self query)
    (fun response =>
       bind (if needs_translation self language
             then translate_text self response language else ret response)
         (fun final_response =>
            bind (get_relevant_documents self query)
              (fun source_docs =>
                 bind (lift (for_each source_entry source_docs))
                   (fun sources =>
                      ret (<["response" := VStr final_response]>
                           (<["sources" := VList sources]>
                           (<["original_query" := VStr query]>
                           (<["processed_query" := VStr query]>
                           (<["language" := VStr language]>
                           (<["source_count" := VInt (Z.of_nat (length sources))]>
                              (∅ : gmap string PyVal))))))))))) s.
Proof.
  unfold chat_try. unfold bind at 1.
  rewrite english_query_unchanged. reflexivity.
Qed.

Lemma chat_except_fields query language e :
  chat_except query language e !! "response" = Some (VStr apology) /\
  chat_except query language e !! "sources" = Some (VList []) /\
  chat_except query language e !! "original_query" = Some (VStr query) /\
  chat_except query language e !! "processed_query" = Some (VStr query) /\
  chat_except query language e !! "language" = Some (VStr language) /\
  chat_except query language e !! "error" = Some (VStr (str_exn e)) /\
  chat_except query language e !! "source_count" = None.
Proof.
  unfold chat_except. repeat split; by simplify_map_eq.
Qed.

(** An exception of the retriever on the query reaches the boundary. *)
Lemma retriever_exception_reaches_boundary self query language s e w' :
  embed_query self query (world s) = (Raise e, w') ->
  chat_try self query language s =
  (Raise e, {| world := w'; calls := calls s ++ [EvEmbedQuery query] |}).
Proof.
  intros He. rewrite chat_try_steps.
  unfold bind, rag_chain_invoke, get_relevant_documents, bind, call.
  rewrite He. reflexivity.
Qed.

(** So does an exception of the language model. *)
Lemma llm_exception_reaches_boundary self query language s v w1 context e w2 :
  embed_query self query (world s) = (Ok v, w1) ->
  format_docs (map entry_document (index_query self v 5)) = Ok context ->
  llm_invoke self (system_prompt self) (human_prompt context query) w1
    = (Raise e, w2) ->
  (chat_try self query language s).1 = Raise e.
Proof.
  intros Hv Hc He. rewrite chat_try_steps.
  unfold bind, rag_chain_invoke, get_relevant_documents, bind, call, ret, lift.
  rewrite Hv. simpl. rewrite Hc. simpl. rewrite He. reflexivity.
Qed.

(** What the [try] block returns when it returns. *)
Lemma chat_try_Ok self query language s answer s' :
  chat_try self query language s = (Ok answer, s') ->
  exists final_response sources,
    answer = <["response" := VStr final_response]>
             (<["sources" := VList sources]>
             (<["original_query" := VStr query]>
             (<["processed_query" := VStr query]>
             (<["language" := VStr language]>
             (<["source_count" := VInt (Z.of_nat (length sources))]> ∅))))).
Proof.
  rewrite chat_try_steps. unfold bind, ret, lift. intros H.
  repeat case_match; simplify_eq; eauto.
Qed.

(** C2, amended: the dictionary [chat] returns always holds [response],
    [sources], [original_query], [processed_query] and [language].  When
    the [try] block returns, it also holds [source_count], the length of
    the [sources] list, and no [error]; when an exception leaves the
    block, it holds [error] and no [source_count]. *)
Theorem chat_answer_fields self query language s :
  let answer := (chat self query language s).1 in
  has_fields ["response"; "sources"; "original_query"; "processed_query"; "language"]
    answer /\
  match (chat_try self query language s).1 with
  | Ok _ =>
      answer !! "error" = None /\
      exists sources,
        answer !! "sources" = Some (VList sources) /\
        answer !! "source_count" = Some (VInt (Z.of_nat (length sources)))
  | Raise e =>
      answer !! "source_count" = None /\
      answer !! "error" = Some (VStr (str_exn e))
  end.
Proof.
  unfold chat, has_fields.
  destruct (chat_try self query language s) as [[answer | e] s'] eqn:Htry; simpl.
  - apply chat_try_Ok in Htry as (final_response & sources & ->).
    split.
    + repeat (apply Forall_cons; split); [..| apply Forall_nil];
        eexists; by simplify_map_eq.
    + split; [by simplify_map_eq |].
      exists sources. split; by simplify_map_eq.
  - destruct (chat_except_fields query language e) as (? & ? & ? & ? & ? & ? & ?).
    split.
    + repeat (apply Forall_cons; split); [..| apply Forall_nil]; eauto.
    + auto.
Qed.

End ChatProperties.

(** C2 as stated fails: the dictionary returned after an exception has
    no [source_count]. *)
Lemma fallback_answer_lacks_source_count :
  ~ has_fields answer_fields
      (chat (failing_agent 3) "What did you build?" "en" start).1.
Proof.
  unfold has_fields, answer_fields. rewrite !Forall_cons.
  intros (_ & _ & _ & _ & _ & Hcount & _).
  vm_compute in Hcount. destruct Hcount as [v Hv]. discriminate.
Qed.


(** ** Translation *)

Section TranslationProperties.

Context {World : Type} {Vec : Type}.
Implicit Types (self : VitaeAgent World Vec) (s : State World).

(** [translate_text] never lets an exception out. *)
Lemma translate_text_returns self text target s :
  exists out, (translate_text self text target s).1 = Ok out.
Proof.
  unfold translate_text.
  destruct (translator self) as [tr |]; [| by eexists].
  destruct (is_english target); [by eexists |].
  unfold try_except.
  match goal with |- context [match ?m s with _ => _ end] => destruct (m s) as [[out | e] s'] end;
    by eexists.
Qed.

(** C7: [translate_text] returns its input unchanged when no translator
    is configured, when the target language is English ([en] or
    [english], in any case), when the language detected for the text is
    the target language, and when the translation service raises, be it
    on detection or on translation; and it never raises itself. *)
Theorem translate_text_passes_through self text target s :
  (translator self = None ->
   translate_text self text target s = (Ok text, s)) /\
  (is_english target = true ->
   translate_text self text target s = (Ok text, s)) /\
  (forall tr d w',
      translator self = Some tr ->
      detect tr text (world s) = (Ok d, w') ->
      d !! "language" = Some target ->
      (translate_text self text target s).1 = Ok text) /\
  (forall tr e w',
      translator self = Some tr ->
      detect tr text (world s) = (Raise e, w') ->
      (translate_text self text target s).1 = Ok text) /\
  (forall tr d w' source e w'',
      translator self = Some tr ->
      detect tr text (world s) = (Ok d, w') ->
      d !! "language" = Some source ->
      translate tr text target source w' = (Raise e, w'') ->
      (translate_text self text target s).1 = Ok text) /\
  (exists out, (translate_text self text target s).1 = Ok out).
Proof.
  split; [| split; [| split; [| split; [| split]]]].
  - intros Hnone. unfold translate_text. rewrite Hnone. reflexivity.
  - intros Hen. unfold translate_text. rewrite Hen.
    destruct (translator self); reflexivity.
  - intros tr d w' Htr Hd Hlang. unfold translate_text. rewrite Htr.
    destruct (is_english target); [reflexivity |].
    unfold try_except, bind, call, subscript, ret. rewrite Hd. simpl.
    rewrite Hlang. simpl. rewrite String.eqb_refl. reflexivity.
  - intros tr e w' Htr Hd. unfold translate_text. rewrite Htr.
    destruct (is_english target); [reflexivity |].
    unfold try_except, bind, call. rewrite Hd. reflexivity.
  - intros tr d w' source e w'' Htr Hd Hlang Ht. unfold translate_text.
    rewrite Htr. destruct (is_english target); [reflexivity |].
    unfold try_except, bind, call, subscript, ret. rewrite Hd. simpl.
    rewrite Hlang. simpl.
    destruct (String.eqb source target); [reflexivity |].
    simpl. rewrite Ht. reflexivity.
  - apply translate_text_returns.
Qed.

(** Without a translator no language needs translation. *)
Lemma needs_translation_unconfigured self language :
  translator self = None -> needs_translation self language = false.
Proof.
  intros Hnone. unfold needs_translation. rewrite Hnone.
  rewrite andb_false_iff. right. apply bool_decide_eq_false.
  intros [tr Htr]. discriminate.
Qed.

(** C5: without a translator, [chat(q, "fr")] and [chat(q, "en")], run
    from the same state of the retriever and the language model, return
    the same response and the same processed query; the first reports
    language [fr], the second [en]. *)
Theorem chat_unconfigured_same_text self query s :
  translator self = None ->
  (chat self query "fr" s).1 !! "response"
    = (chat self query "en" s).1 !! "response" /\
  (chat self query "fr" s).1 !! "processed_query"
    = (chat self query "en" s).1 !! "processed_query" /\
  (chat self query "fr" s).1 !! "language" = Some (VStr "fr") /\
  (chat self query "en" s).1 !! "language" = Some (VStr "en") /\
  (chat self query "fr" s).2 = (chat self query "en" s).2.
Proof.
  intros Hnone. unfold chat. rewrite !chat_try_steps.
  rewrite !(needs_translation_unconfigured _ _ Hnone).
  unfold bind, ret, lift, chat_except.
  repeat case_match; simplify_eq; repeat split; by simplify_map_eq.
Qed.

Lemma needs_translation_english self :
  needs_translation self "en" = false.
Proof. reflexivity. Qed.

(** Every field of the agent but the translator is read off unchanged. *)
Lemma chat_try_english self query s :
  chat_try self query "en" s = chat_try (with_translator None self) query "en" s.
Proof.
  rewrite !chat_try_steps, !needs_translation_english. reflexivity.
Qed.

Lemma silent_ret {A} (a : A) : silent (World := World) (ret a).
Proof. intros s. reflexivity. Qed.

Lemma silent_lift {A} (o : outcome A) : silent (World := World) (lift o).
Proof. intros s. reflexivity. Qed.

Lemma silent_bind {A B} (m : @Eff World A) (k : A -> @Eff World B) :
  silent m -> (forall a, silent (k a)) -> silent (bind m k).
Proof.
  intros Hm Hk s. unfold bind. specialize (Hm s).
  destruct (m s) as [[a | e] s1]; simpl in *.
  - rewrite Hk. exact Hm.
  - exact Hm.
Qed.

Lemma silent_call {A} ev (f : World -> outcome A * World) :
  is_translator_event ev = false -> silent (call ev f).
Proof.
  intros Hev s. unfold call. destruct (f (world s)) as [r w']. simpl.
  rewrite List.filter_app. simpl. rewrite Hev. apply app_nil_r.
Qed.

Lemma silent_get_relevant_documents self query :
  silent (get_relevant_documents self query).
Proof.
  apply silent_bind; [by apply silent_call | intros; apply silent_ret].
Qed.

Lemma silent_rag_chain_invoke self question :
  silent (rag_chain_invoke self question).
Proof.
  apply silent_bind; [apply silent_get_relevant_documents |].
  intros docs. apply silent_bind; [apply silent_lift |].
  intros context. by apply silent_call.
Qed.

(** C6: [chat(q, "en")] does not depend on the translator, which it
    never calls: it returns what it returns with no translator
    configured, answer and state alike, and it records no call to the
    translation service. *)
Theorem chat_english_never_translates self query s :
  chat self query "en" s = chat (with_translator None self) query "en" s /\
  List.filter is_translator_event (calls (chat self query "en" s).2)
    = List.filter is_translator_event (calls s).
Proof.
  split.
  - unfold chat. rewrite chat_try_english. reflexivity.
  - assert (Hs : silent (chat_try self query "en")).
    { intros s0. rewrite chat_try_steps.
      revert s0. apply silent_bind; [apply silent_rag_chain_invoke |].
      intros response. apply silent_bind.
      - rewrite needs_translation_english. apply silent_ret.
      - intros final. apply silent_bind; [apply silent_get_relevant_documents |].
        intros docs. apply silent_bind; [apply silent_lift |].
        intros sources. apply silent_ret. }
    specialize (Hs s). unfold chat.
    destruct (chat_try self query "en" s) as [[answer | e] s']; exact Hs.
Qed.

End TranslationProperties.

(** C7 on concrete agents: no translator; an English target; a text
    detected as French and a French target; a service that is down; a
    service that detects but fails to translate. *)
Lemma translate_text_passes_through_witness :
  translate_text (working_agent 3 None) "Bonjour" "fr" start = (Ok "Bonjour", start) /\
  translate_text (working_agent 3 (Some working_translator)) "Hello" "English" start
    = (Ok "Hello", start) /\
  (translate_text (working_agent 3 (Some french_detector)) "Bonjour" "fr" start).1
    = Ok "Bonjour" /\
  (translate_text (working_agent 3 (Some broken_translator)) "Hello" "fr" start).1
    = Ok "Hello" /\
  (translate_text (working_agent 3 (Some half_translator)) "Hello" "fr" start).1
    = Ok "Hello".
Proof.
  split; [| split; [| split; [| split]]].
  - apply (proj1 (translate_text_passes_through
                    (working_agent 3 None) "Bonjour" "fr" start)).
    reflexivity.
  - apply (proj1 (proj2 (translate_text_passes_through
                    (working_agent 3 (Some working_translator)) "Hello" "English" start))).
    reflexivity.
  - eapply (proj1 (proj2 (proj2 (translate_text_passes_through
              (working_agent 3 (Some french_detector)) "Bonjour" "fr" start))));
      reflexivity.
  - eapply (proj1 (proj2 (proj2 (proj2 (translate_text_passes_through
              (working_agent 3 (Some broken_translator)) "Hello" "fr" start)))));
      reflexivity.
  - eapply (proj1 (proj2 (proj2 (proj2 (proj2 (translate_text_passes_through
              (working_agent 3 (Some half_translator)) "Hello" "fr" start))))))
      with (source := "en");
      reflexivity.
Defined.

(** C5 on an agent over three entries with no translator. *)
Lemma chat_unconfigured_same_text_witness :
  translator (working_agent 3 None) = None /\
  (chat (working_agent 3 None) "What did you build?" "fr" start).1 !! "response"
    = (chat (working_agent 3 None) "What did you build?" "en" start).1 !! "response" /\
  (chat (working_agent 3 None) "What did you build?" "fr" start).1 !! "language"
    = Some (VStr "fr").
Proof.
  split; [reflexivity |].
  destruct (chat_unconfigured_same_text
              (working_agent 3 None) "What did you build?" start eq_refl)
    as (Hresp & _ & Hfr & _).
  split; [exact Hresp | exact Hfr].
Defined.

(** ** The orchestrator boundary and the translator *)

Section ChatBoundary.

Context {World : Type} {Vec : Type}.
Implicit Types (self : VitaeAgent World Vec) (s : State World).

(** An exception of the label computation reaches the boundary too. *)
Lemma label_exception_reaches_boundary self query language s v w1 e :
  embed_query self query (world s) = (Ok v, w1) ->
  format_docs (map entry_document (index_query self v 5)) = Raise e ->
  (chat_try self query language s).1 = Raise e.
Proof.
  intros Hv Hc. rewrite chat_try_steps.
  unfold bind, rag_chain_invoke, get_relevant_documents, bind, call, ret, lift.
  rewrite Hv. simpl. rewrite Hc. reflexivity.
Qed.

(** An exception of the translation service on the translation itself
    stays inside [translate_text]. *)
Lemma translate_text_absorbs_translate self text target s tr d w1 source e w2 :
  translator self = Some tr ->
  is_english target = false ->
  detect tr text (world s) = (Ok d, w1) ->
  d !! "language" = Some source ->
  translate tr text target source w1 = (Raise e, w2) ->
  (translate_text self text target s).1 = Ok text.
Proof.
  intros Htr Hen Hd Hsrc Ht. unfold translate_text. rewrite Htr, Hen.
  unfold try_except, bind, call, subscript, ret. rewrite Hd. simpl.
  rewrite Hsrc. simpl. destruct (String.eqb source target); [reflexivity |].
  simpl. rewrite Ht. reflexivity.
Qed.

Lemma translate_text_absorbs_detect self text target s tr e w1 :
  translator self = Some tr ->
  is_english target = false ->
  detect tr text (world s) = (Raise e, w1) ->
  (translate_text self text target s).1 = Ok text.
Proof.
  intros Htr Hen Hd. unfold translate_text. rewrite Htr, Hen.
  unfold try_except, bind, call, subscript, ret. rewrite Hd. reflexivity.
Qed.

(** C1, amended: [chat] returns a dictionary whatever happens inside.
    Whenever an exception leaves its [try] block, the dictionary is the
    fallback: the fixed apology as response, an empty source list, the
    query as it came and the text of the exception under [error].  This
    is the case when the retriever raises on the query, when a label
    cannot be computed for the context, when the language model raises,
    and when the retriever raises on the second retrieval.  An exception
    of the translator never leaves [translate_text]: the step that
    translates the response always returns, with the response of the
    model unchanged when the detection or the translation raised, and
    when the second retrieval and the source list go through, the
    dictionary is the normal answer, without [error]. *)
Theorem chat_never_raises self query language s :
  exists answer s',
    chat self query language s = (answer, s') /\
    (forall e,
        (chat_try self query language s).1 = Raise e ->
        answer = chat_except query language e /\
        answer !! "response" = Some (VStr apology) /\
        answer !! "sources" = Some (VList []) /\
        answer !! "original_query" = Some (VStr query) /\
        answer !! "error" = Some (VStr (str_exn e))) /\
    (forall e w',
        embed_query self query (world s) = (Raise e, w') ->
        answer = chat_except query language e) /\
    (forall v w1 e,
        embed_query self query (world s) = (Ok v, w1) ->
        format_docs (map entry_document (index_query self v 5)) = Raise e ->
        answer = chat_except query language e) /\
    (forall v w1 context e w2,
        embed_query self query (world s) = (Ok v, w1) ->
        format_docs (map entry_document (index_query self v 5)) = Ok context ->
        llm_invoke self (system_prompt self) (human_prompt context query) w1
          = (Raise e, w2) ->
        answer = chat_except query language e) /\
    (forall response s1,
        rag_chain_invoke self query s = (Ok response, s1) ->
        exists final s2,
          (if needs_translation self language
           then translate_text self response language
           else ret response) s1 = (Ok final, s2) /\
          (forall tr e w',
              translator self = Some tr ->
              detect tr response (world s1) = (Raise e, w') ->
              final = response) /\
          (forall tr d w1 source e w',
              translator self = Some tr ->
              detect tr response (world s1) = (Ok d, w1) ->
              d !! "language" = Some source ->
              translate tr response language source w1 = (Raise e, w') ->
              final = response) /\
          (forall e s3,
              get_relevant_documents self query s2 = (Raise e, s3) ->
              answer = chat_except query language e) /\
          (forall docs s3 sources,
              get_relevant_documents self query s2 = (Ok docs, s3) ->
              for_each source_entry docs = Ok sources ->
              answer = success_answer final sources query language /\
              answer !! "error" = None)).
Proof.
  exists (chat self query language s).1, (chat self query language s).2.
  split; [apply surjective_pairing |].
  assert (Hany : forall e,
             (chat_try self query language s).1 = Raise e ->
             (chat self query language s).1 = chat_except query language e).
  { intros e He. unfold chat.
    destruct (chat_try self query language s) as [[answer | e'] s1]; simpl in *;
      [discriminate | congruence]. }
  split; [| split; [| split; [| split]]].
  - intros e He. rewrite (Hany e He).
    destruct (chat_except_fields query language e) as (? & ? & ? & ? & ? & ? & ?).
    auto.
  - intros e w' He. apply Hany.
    by rewrite (retriever_exception_reaches_boundary _ _ _ _ _ _ He).
  - intros v w1 e Hv Hc. apply Hany.
    by apply (label_exception_reaches_boundary _ _ _ _ v w1).
  - intros v w1 context e w2 Hv Hc He. apply Hany.
    by apply (llm_exception_reaches_boundary _ _ _ _ v w1 context e w2).
  - intros response s1 Hrag.
    assert (Hstep : exists final s2,
               (if needs_translation self language
                then translate_text self response language
                else ret response) s1 = (Ok final, s2) /\
               (needs_translation self language = false -> final = response)).
    { destruct (needs_translation self language).
      - destruct (translate_text_returns self response language s1) as [out Hout].
        exists out, (translate_text self response language s1).2.
        split; [| discriminate].
        rewrite <- Hout. apply surjective_pairing.
      - by exists response, s1. }
    destruct Hstep as (final & s2 & Hstep & Hplain).
    exists final, s2. split; [exact Hstep |].
    assert (Hneeds : forall tr, translator self = Some tr ->
               (is_english language = false /\
                translate_text self response language s1 = (Ok final, s2))
               \/ final = response).
    { intros tr Htr. unfold needs_translation in *. rewrite Htr in *.
      destruct (is_english language); simpl in *; [right; by apply Hplain | left; by split]. }
    split; [| split; [| split]].
    + intros tr e w' Htr Hd. destruct (Hneeds tr Htr) as [[Hen Htext] | ->]; [| done].
      pose proof (translate_text_absorbs_detect self response language s1 tr e w' Htr Hen Hd)
        as Hsame.
      rewrite Htext in Hsame. by injection Hsame.
    + intros tr d w1 source e w' Htr Hd Hsrc Ht.
      destruct (Hneeds tr Htr) as [[Hen Htext] | ->]; [| done].
      pose proof (translate_text_absorbs_translate self response language s1 tr d w1
                    source e w' Htr Hen Hd Hsrc Ht) as Hsame.
      rewrite Htext in Hsame. by injection Hsame.
    + intros e s3 Hdocs. apply Hany. rewrite chat_try_steps.
      unfold bind at 1. rewrite Hrag. unfold bind at 1. rewrite Hstep.
      unfold bind at 1. by rewrite Hdocs.
    + intros docs s3 sources Hdocs Hsources.
      assert (Htry : chat_try self query language s
                     = (Ok (success_answer final sources query language), s3)).
      { rewrite chat_try_steps.
        unfold bind at 1. rewrite Hrag. unfold bind at 1. rewrite Hstep.
        unfold bind at 1. rewrite Hdocs. unfold bind, lift, ret. by rewrite Hsources. }
      unfold chat. rewrite Htry. simpl. split; [reflexivity |].
      unfold success_answer. by simplify_map_eq.
Qed.

End ChatBoundary.

(** C1 on an agent whose embedding model is unreachable, and on an agent
    whose translation service is down. *)
Lemma chat_never_raises_witness :
  (exists answer s',
      chat (failing_agent 3) "What did you build?" "fr" start = (answer, s') /\
      answer !! "response" = Some (VStr apology) /\
      answer !! "sources" = Some (VList []) /\
      answer !! "original_query" = Some (VStr "What did you build?") /\
      answer !! "error" = Some (VStr "embedding model unreachable")) /\
  (exists answer s',
      chat (working_agent 3 (Some broken_translator)) "What did you build?" "fr" start
      = (answer, s') /\
      answer !! "error" = None).
Proof.
  split.
  - destruct (chat_never_raises (failing_agent 3) "What did you build?" "fr" start)
      as (answer & s' & Hchat & Hany & _).
    exists answer, s'. split; [exact Hchat |].
    apply (Hany (External "embedding model unreachable")).
    vm_compute. reflexivity.
  - destruct (chat_never_raises (working_agent 3 (Some broken_translator))
                "What did you build?" "fr" start)
      as (answer & s' & Hchat & _ & _ & _ & _ & Htranslator).
    exists answer, s'. split; [exact Hchat |].
    destruct (Htranslator _ _ eq_refl) as (final & s2 & Hstep & _ & _ & _ & Hrest).
    injection Hstep as <- <-.
    by destruct (Hrest _ _ _ eq_refl eq_refl) as [_ Herror].
Defined.

(** C1 as stated fails for the translator: the translation service
    raises on the response, and the dictionary returned is the normal
    answer, with the response of the model, the sources and no [error]. *)
Lemma translator_exception_gives_no_fallback :
  let run := chat (working_agent 3 (Some broken_translator))
               "What did you build?" "fr" start in
  (detect broken_translator "I worked on it [Source: notes.txt]." tt).1
    = Raise (External "503 Service Unavailable") /\
  In (EvDetect "I worked on it [Source: notes.txt].") (calls run.2) /\
  run.1 !! "response" = Some (VStr "I worked on it [Source: notes.txt].") /\
  run.1 !! "response" <> Some (VStr apology) /\
  run.1 !! "sources" <> Some (VList []) /\
  run.1 !! "error" = None.
Proof.
  cbv zeta. split; [reflexivity |].
  split; [vm_compute; tauto |].
  split; [vm_compute; reflexivity |].
  split; [vm_compute; discriminate |].
  split; [vm_compute; discriminate |].
  vm_compute. reflexivity.
Qed.

(** ** Health check *)

Section HealthProperties.

Context {World : Type} {Vec : Type}.
Implicit Types (self : VitaeAgent World Vec) (s : State World).

Lemma length_insert_nearest (nearer : Vec -> Vec -> Vec -> bool) q
    (e : Entry Vec) (l : list (Entry Vec)) :
  length (insert_nearest nearer q e l) = S (length l).
Proof.
  induction l as [| x rest IH]; simpl; [reflexivity |].
  destruct (nearer q (entry_vector e) (entry_vector x)); simpl;
    [reflexivity | by rewrite IH].
Qed.

Lemma length_by_similarity (nearer : Vec -> Vec -> Vec -> bool) q
    (l : list (Entry Vec)) :
  length (by_similarity nearer q l) = length l.
Proof.
  induction l as [| e rest IH]; simpl; [reflexivity |].
  unfold by_similarity in *. simpl. rewrite length_insert_nearest.
  by rewrite IH.
Qed.

(** A query for [k] entries returns [k] of them, or all there are. *)
Lemma length_index_query self q k :
  length (index_query self q k) = Nat.min k (count self).
Proof.
  unfold index_query, count. rewrite length_take, length_by_similarity.
  reflexivity.
Qed.

Lemma health_check_retrieved self s v w' :
  embed_query self "test" (world s) = (Ok v, w') ->
  (health_check self s).1 !! "retriever_ready" = Some (VBool true) /\
  (health_check self s).1 !! "database_count"
    = Some (VInt (Z.of_nat (Nat.min 5 (count self)))).
Proof.
  intros Hv. unfold health_check, get_relevant_documents, bind, call, ret.
  rewrite Hv. simpl. rewrite length_map, length_index_query.
  destruct (llm_predict self "Hello" w') as [[resp | e] w'']; simpl;
    split; by simplify_map_eq.
Qed.

(** On an empty index, once the probe query is embedded, the check
    reports a ready retriever and a count of zero. *)
Lemma health_check_empty_index self s v w' :
  collection self = [] ->
  embed_query self "test" (world s) = (Ok v, w') ->
  (health_check self s).1 !! "retriever_ready" = Some (VBool true) /\
  (health_check self s).1 !! "database_count" = Some (VInt 0).
Proof.
  intros Hempty Hv.
  destruct (health_check_retrieved self s v w' Hv) as [Hr Hc].
  split; [exact Hr |]. rewrite Hc. unfold count. rewrite Hempty. reflexivity.
Qed.

(** An exception inside the check ends up under [error]. *)
Lemma health_check_error self s e w' :
  embed_query self "test" (world s) = (Raise e, w') ->
  (health_check self s).1 !! "error" = Some (VStr (str_exn e)) /\
  (health_check self s).1 !! "database_count" = Some (VInt 0).
Proof.
  intros He. unfold health_check, get_relevant_documents, bind, call.
  rewrite He. simpl. split; by simplify_map_eq.
Qed.

(** C10: the [database_count] of a health check is the length of a
    top-5 retrieval: it is at most 5, it is the smaller of 5 and the
    number of stored entries when the check reports no error, and it
    differs from the number of stored entries as soon as more than 5 are
    stored. *)
Theorem health_check_count_at_most_k self s :
  exists n : nat,
    (health_check self s).1 !! "database_count" = Some (VInt (Z.of_nat n)) /\
    n <= 5 /\
    ((health_check self s).1 !! "error" = None -> n = Nat.min 5 (count self)) /\
    (5 < count self -> n <> count self).
Proof.
  destruct (embed_query self "test" (world s)) as [[v | e] w'] eqn:Hq.
  - exists (Nat.min 5 (count self)).
    destruct (health_check_retrieved self s v w' Hq) as [_ Hc].
    split; [exact Hc |]. split; [lia |]. split; [reflexivity | lia].
  - exists 0.
    destruct (health_check_error self s e w' Hq) as [Herr Hc].
    split; [exact Hc |]. split; [lia |]. split; [| lia].
    rewrite Herr. discriminate.
Qed.

End HealthProperties.

(** C4 fails on the code: with six entries stored, the health check
    reports a [database_count] of five. *)
Lemma health_check_six_entries :
  count (working_agent 6 None) = 6 /\
  (health_check (working_agent 6 None) start).1 !! "error" = None /\
  (health_check (working_agent 6 None) start).1 !! "database_count" = Some (VInt 5).
Proof. vm_compute. repeat split. Qed.

(** C10 on an agent over seven entries. *)
Lemma health_check_count_at_most_k_witness :
  exists n : nat,
    (health_check (working_agent 7 None) start).1 !! "database_count"
      = Some (VInt (Z.of_nat n)) /\
    n = 5 /\ n <> count (working_agent 7 None).
Proof.
  destruct (health_check_count_at_most_k (working_agent 7 None) start)
    as (n & Hc & _ & Hok & Hne).
  exists n. split; [exact Hc |]. split.
  - rewrite Hok; reflexivity.
  - apply Hne. vm_compute. lia.
Defined.

(** ** The chunker *)

Section ChunkerProperties.

Variable ts : TextSplitter.

Lemma total_len_app (a b : list string) :
  total_len (a ++ b) = total_len a + total_len b.
Proof.
  induction a as [| p a IH]; simpl; [reflexivity |]. rewrite IH. lia.
Qed.

Lemma length_append (a b : string) :
  String.length (a +:+ b) = String.length a + String.length b.
Proof.
  induction a as [| c a IH]; [reflexivity |].
  change (S (String.length (a +:+ b)) = S (String.length a + String.length b)).
  by rewrite IH.
Qed.

Lemma append_empty_r (a : string) : a +:+ "" = a.
Proof.
  induction a as [| c a IH]; [reflexivity |].
  change (String c (a +:+ "") = String c a). by rewrite IH.
Qed.

Lemma append_assoc (a b c : string) : (a +:+ b) +:+ c = a +:+ (b +:+ c).
Proof.
  induction a as [| x a IH]; [reflexivity |].
  change (String x ((a +:+ b) +:+ c) = String x (a +:+ (b +:+ c))). by rewrite IH.
Qed.

Lemma join_cons (p : string) (l : list string) : join "" (p :: l) = p +:+ join "" l.
Proof.
  destruct l as [| q l]; [symmetry; apply append_empty_r | reflexivity].
Qed.

Lemma join_app (a b : list string) : join "" (a ++ b) = join "" a +:+ join "" b.
Proof.
  induction a as [| p a IH]; [reflexivity |].
  change ((p :: a) ++ b)%list with (p :: (a ++ b))%list.
  by rewrite !join_cons, IH, append_assoc.
Qed.

Lemma part_of_refl (text : string) : part_of text text.
Proof. exists "", "". by rewrite append_empty_r. Qed.

Lemma part_of_inside (chunk text before after : string) :
  part_of chunk text -> part_of chunk (before +:+ text +:+ after).
Proof.
  intros (b & a & ->). exists (before +:+ b), (a +:+ after).
  by rewrite !append_assoc.
Qed.

Lemma part_of_trans (a b c : string) : part_of a b -> part_of b c -> part_of a c.
Proof. intros Hab (before & after & ->). by apply part_of_inside. Qed.

Lemma lstrip_part (text : string) : exists before, text = before +:+ lstrip text.
Proof.
  induction text as [| c rest (before & IH)]; [by exists "" |].
  simpl. destruct (is_space c).
  - exists (String c before). change (String c rest = String c (before +:+ lstrip rest)).
    by rewrite <- IH.
  - by exists "".
Qed.

Lemma rstrip_part (text : string) : exists after, text = rstrip text +:+ after.
Proof.
  induction text as [| c rest (after & IH)]; [by exists "" |].
  simpl. destruct (rstrip rest) as [| c' kept] eqn:Hkept.
  - destruct (is_space c).
    + by exists (String c rest).
    + exists after. change (rest = after) in IH.
      change (String c rest = String c after). by rewrite <- IH.
  - exists after. change (String c rest = String c (String c' kept +:+ after)).
    by rewrite <- IH.
Qed.

Lemma part_of_strip (text : string) : part_of (strip text) text.
Proof.
  unfold strip. destruct (lstrip_part text) as (before & Hbefore).
  destruct (rstrip_part (lstrip text)) as (after & Hafter).
  exists before, after. by rewrite <- Hafter.
Qed.

Lemma part_of_join (a w b : list string) :
  part_of (join "" w) (join "" (a ++ w ++ b)).
Proof.
  exists (join "" a), (join "" b). by rewrite !join_app.
Qed.

Lemma length_join_empty (cur : list string) :
  String.length (join "" cur) = total_len cur.
Proof.
  unfold join. induction cur as [| p cur IH]; [reflexivity |].
  destruct cur as [| p' cur].
  - simpl. lia.
  - change (String.concat "" (p :: p' :: cur))
      with (p +:+ "" +:+ String.concat "" (p' :: cur)).
    rewrite !length_append, IH. simpl. lia.
Qed.

(** What stays of a full window is a tail of it, no longer than the
    overlap, and leaves room for the piece that comes next. *)
Lemma drop_overlap_spec (len : nat) (cur : list string) :
  len <= chunk_size ts ->
  (exists gone, cur = (gone ++ drop_overlap ts len cur)%list) /\
  total_len (drop_overlap ts len cur) <= chunk_overlap ts /\
  total_len (drop_overlap ts len cur) + len <= chunk_size ts.
Proof.
  intros Hlen. induction cur as [| p rest IH].
  - simpl. split; [by exists [] |]. lia.
  - cbn [drop_overlap].
    destruct (Nat.ltb (chunk_overlap ts) (total_len (p :: rest))
              || (Nat.ltb (chunk_size ts) (total_len (p :: rest) + len)
                  && Nat.ltb 0 (total_len (p :: rest)))) eqn:Hcond.
    + destruct IH as ((gone & Hgone) & Hov & Hroom).
      split; [| auto]. exists (p :: gone). simpl. by rewrite <- Hgone.
    + apply orb_false_iff in Hcond as [Hov Hroom].
      apply Nat.ltb_ge in Hov. apply andb_false_iff in Hroom.
      split; [by exists [] |]. split; [exact Hov |].
      destruct Hroom as [Hroom | Hzero].
      * apply Nat.ltb_ge in Hroom. exact Hroom.
      * apply Nat.ltb_ge in Hzero. lia.
Qed.

Lemma length_lstrip_le (text : string) :
  String.length (lstrip text) <= String.length text.
Proof.
  induction text as [| c rest IH]; simpl; [lia |].
  destruct (is_space c); simpl; lia.
Qed.

Lemma length_rstrip_le (text : string) :
  String.length (rstrip text) <= String.length text.
Proof.
  induction text as [| c rest IH]; simpl; [lia |].
  destruct (rstrip rest) as [| c' kept]; [destruct (is_space c) |]; simpl in *; lia.
Qed.

Lemma length_strip_le (text : string) :
  String.length (strip text) <= String.length text.
Proof.
  unfold strip. pose proof (length_rstrip_le (lstrip text)).
  pose proof (length_lstrip_le text). lia.
Qed.

Lemma emit_fits (cur : list string) :
  total_len cur <= chunk_size ts -> Forall (fits ts) (emit cur).
Proof.
  intros Hcur. unfold emit. destruct cur as [| p cur]; [constructor |].
  cbv zeta. destruct (nonempty (strip (join "" (p :: cur)))); [| constructor].
  constructor; [| constructor]. unfold fits.
  pose proof (length_strip_le (join "" (p :: cur))) as Hstrip.
  rewrite length_join_empty in Hstrip. lia.
Qed.

(** Merging pieces that fit gives chunks that fit. *)
Lemma merge_loop_fits (pieces cur : list string) :
  total_len cur <= chunk_size ts ->
  Forall (fits ts) pieces ->
  Forall (fits ts) (merge_loop ts cur pieces).
Proof.
  revert cur. induction pieces as [| d rest IH]; intros cur Hcur Hpieces.
  - simpl. by apply emit_fits.
  - apply Forall_cons in Hpieces as [Hd Hrest]. unfold fits in Hd.
    cbn [merge_loop].
    destruct (Nat.ltb (chunk_size ts) (total_len cur + String.length d)) eqn:Hfull.
    + apply Forall_app. split; [by apply emit_fits |].
      apply IH; [| exact Hrest].
      destruct (drop_overlap_spec (String.length d) cur Hd) as (_ & _ & Hroom).
      rewrite total_len_app. simpl. lia.
    + apply Nat.ltb_ge in Hfull. apply IH; [| exact Hrest].
      rewrite total_len_app. simpl. lia.
Qed.

Lemma merge_splits_fits (pieces : list string) :
  Forall (fits ts) pieces -> Forall (fits ts) (merge_splits ts pieces).
Proof.
  intros Hpieces. unfold merge_splits. apply merge_loop_fits; [simpl; lia | exact Hpieces].
Qed.

(** Regrouping the pieces of a cut gives chunks that fit, as long as
    cutting a long piece further does. *)
Lemma regroup_fits (further : string -> list string) (splits good : list string) :
  (forall s, In s splits -> chunk_size ts <= String.length s -> Forall (fits ts) (further s)) ->
  Forall (fits ts) good ->
  Forall (fits ts) (regroup ts further good splits).
Proof.
  revert good. induction splits as [| s rest IH]; intros good Hfurther Hgood.
  - simpl. by apply merge_splits_fits.
  - cbn [regroup].
    destruct (Nat.ltb (String.length s) (chunk_size ts)) eqn:Hshort.
    + apply Nat.ltb_lt in Hshort. apply IH.
      * intros s' Hin. apply Hfurther. by right.
      * apply Forall_app. split; [exact Hgood |].
        constructor; [unfold fits; lia | constructor].
    + apply Nat.ltb_ge in Hshort.
      apply Forall_app. split; [by apply merge_splits_fits |].
      apply Forall_app. split.
      * apply Hfurther; [by left | exact Hshort].
      * apply IH; [| constructor]. intros s' Hin. apply Hfurther. by right.
Qed.

Lemma chars_length (text s : string) : In s (chars text) -> String.length s = 1.
Proof.
  induction text as [| c rest IH]; simpl; [tauto |].
  intros [<- | Hin]; [reflexivity | by apply IH].
Qed.

Lemma split_on_empty_length (text s : string) :
  In s (split_on "" text) -> String.length s = 1.
Proof.
  unfold split_on. simpl. rewrite List.filter_In. intros [Hin _].
  by apply chars_length in Hin.
Qed.

Lemma eqb_empty_false_ne (sep : string) : String.eqb sep "" = false -> sep <> "".
Proof. apply String.eqb_neq. Qed.

(** With the empty separator in the list and a maximum size above one
    character, every chunk of every text fits. *)
Lemma split_text_fits (seps : list string) :
  In "" seps -> 1 < chunk_size ts ->
  forall text, Forall (fits ts) (split_text ts seps text).
Proof.
  intros Hin Hsize. induction seps as [| sep rest IH]; [destruct Hin |].
  intros text. cbn [split_text].
  destruct (String.eqb sep "") eqn:Hsep.
  - apply String.eqb_eq in Hsep as ->.
    apply regroup_fits; [| constructor].
    intros s Hs Hlong. apply split_on_empty_length in Hs. lia.
  - apply eqb_empty_false_ne in Hsep.
    assert (Hrest : In "" rest).
    { destruct Hin as [Heq | Hin]; [congruence | exact Hin]. }
    destruct (occurs sep text).
    + apply regroup_fits; [| constructor].
      intros s _ _. by apply IH.
    + by apply IH.
Qed.

Lemma merge_loop_windows (pieces cur : list string) :
  merge_loop ts cur pieces = flat_map emit (merge_windows ts cur pieces).
Proof.
  revert cur. induction pieces as [| d rest IH]; intros cur;
    cbn [merge_loop merge_windows].
  - simpl. by rewrite app_nil_r.
  - destruct (Nat.ltb _ _); [cbn [flat_map]; by rewrite IH | apply IH].
Qed.

Lemma drop_overlap_tail (len : nat) (cur : list string) :
  (exists gone, cur = (gone ++ drop_overlap ts len cur)%list) /\
  total_len (drop_overlap ts len cur) <= chunk_overlap ts.
Proof.
  induction cur as [| p rest IH].
  - simpl. split; [by exists [] | lia].
  - cbn [drop_overlap].
    destruct (Nat.ltb (chunk_overlap ts) (total_len (p :: rest))
              || (Nat.ltb (chunk_size ts) (total_len (p :: rest) + len)
                  && Nat.ltb 0 (total_len (p :: rest)))) eqn:Hcond.
    + destruct IH as ((gone & Hgone) & Hov).
      split; [| exact Hov]. exists (p :: gone). simpl. by rewrite <- Hgone.
    + apply orb_false_iff in Hcond as [Hov _]. apply Nat.ltb_ge in Hov.
      split; [by exists [] | exact Hov].
Qed.

Lemma merge_windows_head (pieces cur : list string) :
  exists more rest, merge_windows ts cur pieces = (cur ++ more)%list :: rest.
Proof.
  revert cur. induction pieces as [| d rest IH]; intros cur; cbn [merge_windows].
  - exists [], []. by rewrite app_nil_r.
  - destruct (Nat.ltb _ _).
    + eexists [], _. by rewrite app_nil_r.
    + destruct (IH (cur ++ [d])%list) as (more & rest' & ->).
      exists (d :: more), rest'. by rewrite <- app_assoc.
Qed.

Lemma merge_windows_cover (pieces cur : list string) (p : string) :
  In p (cur ++ pieces)%list <->
  exists w, In w (merge_windows ts cur pieces) /\ In p w.
Proof.
  revert cur. induction pieces as [| d rest IH]; intros cur; cbn [merge_windows].
  - rewrite app_nil_r. split.
    + intros Hin. exists cur. split; [by left | exact Hin].
    + intros (w & [<- | []] & Hin). exact Hin.
  - destruct (Nat.ltb _ _).
    + destruct (drop_overlap_tail (String.length d) cur) as ((gone & Hgone) & _).
      split.
      * rewrite in_app_iff. intros [Hcur | Hrest].
        -- exists cur. split; [by left | exact Hcur].
        -- destruct (proj1 (IH (drop_overlap ts (String.length d) cur ++ [d])%list))
             as (w & Hw & Hin).
           { rewrite <- app_assoc. apply in_app_iff. by right. }
           exists w. split; [by right | exact Hin].
      * intros (w & [<- | Hw] & Hin); [apply in_app_iff; by left |].
        assert (Hp : In p ((drop_overlap ts (String.length d) cur ++ [d]) ++ rest)%list)
          by (apply IH; by exists w).
        rewrite <- app_assoc in Hp. apply in_app_iff in Hp as [Hp | Hp].
        -- apply in_app_iff. left. rewrite Hgone. apply in_app_iff. by right.
        -- apply in_app_iff. by right.
    + specialize (IH (cur ++ [d])%list). by rewrite <- app_assoc in IH.
Qed.

Lemma merge_windows_infix (pieces cur w : list string) :
  In w (merge_windows ts cur pieces) ->
  exists a b, (cur ++ pieces = a ++ w ++ b)%list.
Proof.
  revert cur. induction pieces as [| d rest IH]; intros cur; cbn [merge_windows].
  - intros [<- | []]. by exists [], [].
  - destruct (Nat.ltb _ _).
    + intros [<- | Hw]; [by exists [], (d :: rest) |].
      destruct (IH _ Hw) as (a & b & Heq).
      destruct (drop_overlap_tail (String.length d) cur) as ((gone & Hgone) & _).
      exists (gone ++ a)%list, b. rewrite <- app_assoc, <- Heq.
      rewrite Hgone at 1. by rewrite <- !app_assoc.
    + intros Hw. destruct (IH _ Hw) as (a & b & Heq).
      exists a, b. rewrite <- Heq. by rewrite <- app_assoc.
Qed.



Lemma join_filter_nonempty (l : list string) :
  join "" (List.filter nonempty l) = join "" l.
Proof.
  induction l as [| p l IH]; [reflexivity |].
  cbn [List.filter]. destruct (nonempty p) eqn:Hp.
  - by rewrite !join_cons, IH.
  - rewrite join_cons, IH. unfold nonempty in Hp.
    apply negb_false_iff, String.eqb_eq in Hp. by subst p.
Qed.

Lemma join_chars (text : string) : join "" (chars text) = text.
Proof.
  induction text as [| c rest IH]; [reflexivity |].
  cbn [chars]. rewrite join_cons, IH. reflexivity.
Qed.

Lemma join_split_keep (sep : string) (text : string) (skip : nat) (cur : string) :
  join "" (split_keep sep skip cur text) = cur +:+ text.
Proof.
  revert skip cur. induction text as [| c rest IH]; intros skip cur.
  - simpl. by rewrite append_empty_r.
  - assert (Hgo : forall k, join "" (split_keep sep k (cur +:+ String c "") rest)
                            = cur +:+ String c rest).
    { intros k. rewrite IH, append_assoc. reflexivity. }
    cbn [split_keep]. destruct skip as [| k]; [| apply Hgo].
    destruct (String.prefix sep (String c rest)); [| apply Hgo].
    rewrite join_cons, IH. reflexivity.
Qed.

(** The pieces of a cut, put end to end, are the text. *)
Lemma join_split_on (sep text : string) : join "" (split_on sep text) = text.
Proof.
  unfold split_on. rewrite join_filter_nonempty.
  destruct (String.eqb sep ""); [apply join_chars | apply join_split_keep].
Qed.

Lemma split_on_nonempty (sep text s : string) : In s (split_on sep text) -> s <> "".
Proof.
  unfold split_on. rewrite List.filter_In. intros [_ Hs]. by apply nonempty_true.
Qed.

Lemma total_len_In (l : list string) (s : string) :
  In s l -> String.length s <= total_len l.
Proof.
  induction l as [| p l IH]; [intros [] |].
  intros [<- | Hin]; simpl; [lia |]. specialize (IH Hin). lia.
Qed.

Lemma split_on_length (sep text s : string) :
  In s (split_on sep text) -> String.length s <= String.length text.
Proof.
  intros Hin. apply total_len_In in Hin.
  by rewrite <- length_join_empty, join_split_on in Hin.
Qed.

Lemma emit_In (cur : list string) (chunk : string) :
  In chunk (emit cur) -> chunk = strip (join "" cur) /\ chunk <> "".
Proof.
  unfold emit. destruct cur as [| p cur]; [intros [] |]. cbv zeta.
  destruct (nonempty (strip (join "" (p :: cur)))) eqn:Hne; [| intros []].
  intros [<- | []]. split; [reflexivity | by apply nonempty_true].
Qed.

(** A chunk of a merge is one of its windows, stripped. *)
Lemma merge_loop_In (pieces cur : list string) (chunk : string) :
  In chunk (merge_loop ts cur pieces) ->
  chunk <> "" /\ part_of chunk (join "" (cur ++ pieces)).
Proof.
  rewrite merge_loop_windows, in_flat_map. intros (w & Hw & Hchunk).
  apply emit_In in Hchunk as [-> Hne]. split; [exact Hne |].
  apply merge_windows_infix in Hw as (a & b & ->).
  eapply part_of_trans; [apply part_of_strip | apply part_of_join].
Qed.

Lemma regroup_In (further : string -> list string) (splits good : list string)
    (chunk : string) :
  (forall s c, In s splits -> In c (further s) -> c <> "" /\ part_of c s) ->
  In chunk (regroup ts further good splits) ->
  chunk <> "" /\ part_of chunk (join "" (good ++ splits)).
Proof.
  revert good. induction splits as [| s rest IH]; intros good Hfurther.
  - simpl. unfold merge_splits. intros Hin. apply merge_loop_In in Hin.
    by rewrite app_nil_r.
  - cbn [regroup]. destruct (Nat.ltb (String.length s) (chunk_size ts)).
    + intros Hin. apply IH in Hin.
      * by rewrite <- app_assoc in Hin.
      * intros s' c Hs'. apply Hfurther. by right.
    + rewrite !in_app_iff. intros [Hin | [Hin | Hin]].
      * apply merge_loop_In in Hin as [Hne Hpart]. split; [exact Hne |].
        cbn [app] in Hpart. rewrite join_app.
        destruct Hpart as (b & a & ->). exists b, (a +:+ join "" (s :: rest)).
        by rewrite !append_assoc.
      * apply Hfurther in Hin as [Hne Hpart]; [| by left]. split; [exact Hne |].
        rewrite join_app, join_cons.
        destruct Hpart as (b & a & ->). exists (join "" good +:+ b), (a +:+ join "" rest).
        by rewrite !append_assoc.
      * apply IH in Hin as [Hne Hpart]; [| intros s' c Hs'; apply Hfurther; by right].
        split; [exact Hne |]. simpl in Hpart. rewrite join_app, join_cons.
        destruct Hpart as (b & a & ->). exists (join "" good +:+ s +:+ b), a.
        by rewrite !append_assoc.
Qed.

(** Every chunk is a part of the text, and not empty. *)
Lemma split_text_In (seps : list string) (text chunk : string) :
  In chunk (split_text ts seps text) -> chunk <> "" /\ part_of chunk text.
Proof.
  revert text chunk. induction seps as [| sep rest IH]; intros text chunk.
  - simpl. destruct (nonempty text) eqn:Hne; [| intros []].
    intros [<- | []]. split; [by apply nonempty_true | apply part_of_refl].
  - cbn [split_text]. destruct (String.eqb sep "").
    + intros Hin. apply regroup_In in Hin.
      * simpl in Hin. by rewrite join_split_on in Hin.
      * intros s c Hs [<- | []]. split; [by apply split_on_nonempty in Hs |].
        apply part_of_refl.
    + destruct (occurs sep text); [| apply IH].
      intros Hin. apply regroup_In in Hin.
      * simpl in Hin. by rewrite join_split_on in Hin.
      * intros s c _. apply IH.
Qed.

Lemma regroup_short (further : string -> list string) (splits good : list string) :
  Forall (fun p => String.length p < chunk_size ts) splits ->
  regroup ts further good splits = merge_splits ts (good ++ splits).
Proof.
  revert good. induction splits as [| s rest IH]; intros good Hshort.
  - by rewrite app_nil_r.
  - apply Forall_cons in Hshort as [Hs Hrest]. cbn [regroup].
    apply Nat.ltb_lt in Hs. rewrite Hs, IH by exact Hrest. by rewrite <- app_assoc.
Qed.

Lemma merge_loop_one_window (pieces cur : list string) :
  total_len (cur ++ pieces) <= chunk_size ts ->
  merge_loop ts cur pieces = emit (cur ++ pieces).
Proof.
  revert cur. induction pieces as [| d rest IH]; intros cur Hlen.
  - by rewrite app_nil_r.
  - cbn [merge_loop]. rewrite total_len_app in Hlen. simpl in Hlen.
    destruct (Nat.ltb (chunk_size ts) (total_len cur + String.length d)) eqn:Hfull.
    + apply Nat.ltb_lt in Hfull. lia.
    + rewrite IH; [by rewrite <- app_assoc |].
      rewrite !total_len_app. simpl. lia.
Qed.

Lemma emit_split_on (sep text : string) :
  emit (split_on sep text) = if nonempty (strip text) then [strip text] else [].
Proof.
  unfold emit. pose proof (join_split_on sep text) as Hjoin.
  destruct (split_on sep text) as [| p l].
  - simpl in Hjoin. by subst text.
  - cbv zeta. by rewrite Hjoin.
Qed.

Lemma occurs_empty (text : string) : occurs "" text = true.
Proof. by destruct text. Qed.

(** A text under the maximum size is one chunk. *)
Lemma split_text_short (seps : list string) (text : string) :
  In "" seps -> String.length text < chunk_size ts ->
  split_text ts seps text = if nonempty (strip text) then [strip text] else [].
Proof.
  intros Hin Hlen.
  assert (Hcut : forall further sep,
             regroup ts further [] (split_on sep text)
             = if nonempty (strip text) then [strip text] else []).
  { intros further sep. rewrite regroup_short.
    - unfold merge_splits. simpl. rewrite merge_loop_one_window.
      + apply emit_split_on.
      + simpl. rewrite <- length_join_empty, join_split_on. lia.
    - apply Forall_forall. intros p Hp. apply list_elem_of_In, split_on_length in Hp. lia. }
  induction seps as [| sep rest IH]; [destruct Hin |].
  cbn [split_text]. destruct (String.eqb sep "") eqn:Hsep; [apply Hcut |].
  destruct (occurs sep text); [apply Hcut |].
  apply IH. apply String.eqb_neq in Hsep.
  destruct Hin as [Heq | Hin]; [congruence | exact Hin].
Qed.

Lemma prefix_split (a b : string) :
  String.prefix a b = true <-> exists rest, b = a +:+ rest.
Proof.
  revert b. induction a as [| c a IH]; intros b.
  - split; [intros _; by exists b | by destruct b].
  - destruct b as [| c' b]; simpl.
    + split; [discriminate | intros [rest H]; discriminate].
    + destruct (Ascii.ascii_dec c c') as [-> | Hne].
      * rewrite IH. split; intros [rest H]; exists rest.
        -- by rewrite H.
        -- by injection H.
      * split; [discriminate |]. intros [rest H]. injection H as H _. congruence.
Qed.

Lemma occurs_empty_text (sep : string) : sep <> "" -> occurs sep "" = false.
Proof. by destruct sep. Qed.

(** Passing the characters of an occurrence just found. *)
Lemma split_keep_skip (sep passed rest cur : string) :
  split_keep sep (String.length passed) cur (passed +:+ rest)
  = split_keep sep 0 (cur +:+ passed) rest.
Proof.
  revert cur. induction passed as [| c passed IH]; intros cur.
  - by rewrite append_empty_r.
  - change (String c passed +:+ rest) with (String c (passed +:+ rest)).
    cbn [String.length split_keep]. rewrite IH, append_assoc. reflexivity.
Qed.

(** A text is cut at occurrences of the separator, and between two cuts
    there is none. *)
Lemma split_keep_cut (sep : string) (n : nat) (text cur : string) :
  sep <> "" -> String.length text <= n ->
  exists r rests tail,
    split_keep sep 0 cur text = (cur +:+ r) :: map (String.append sep) rests /\
    text = r +:+ tail /\
    occurs sep r = false /\
    Forall (fun r => occurs sep r = false) rests.
Proof.
  intros Hsep. revert text cur. induction n as [| n IH]; intros text cur Hlen.
  - destruct text; [| simpl in Hlen; lia].
    exists "", [], "". rewrite append_empty_r.
    split; [done |]. split; [done |]. split; [by apply occurs_empty_text | done].
  - destruct text as [| c rest].
    { exists "", [], "". rewrite append_empty_r.
      split; [done |]. split; [done |]. split; [by apply occurs_empty_text | done]. }
    simpl in Hlen. cbn [split_keep].
    destruct (String.prefix sep (String c rest)) eqn:Hprefix.
    + apply prefix_split in Hprefix as [rest2 Hrest2].
      destruct sep as [| c' sep']; [done |].
      injection Hrest2 as <- ->.
      replace (String.length (String c sep') - 1) with (String.length sep')
        by (simpl; lia).
      rewrite split_keep_skip.
      destruct (IH rest2 (String c "" +:+ sep')) as (r & rests & tail & Hcut & Htail & Hr & Hrests).
      { rewrite length_append in Hlen. lia. }
      exists "", (r :: rests), (String c (sep' +:+ rest2)). rewrite append_empty_r.
      split; [by rewrite Hcut |]. split; [done |].
      split; [by apply occurs_empty_text |]. by constructor.
    + destruct (IH rest (cur +:+ String c "")) as (r & rests & tail & Hcut & Htail & Hr & Hrests);
        [lia |].
      exists (String c r), rests, tail.
      split; [by rewrite Hcut, append_assoc |].
      split; [by rewrite Htail |]. split; [| exact Hrests].
      cbn [occurs]. rewrite Hr, orb_false_r.
      destruct (String.prefix sep (String c r)) eqn:Hp; [| done].
      apply prefix_split in Hp as [x Hx].
      assert (Hyes : String.prefix sep (String c rest) = true).
      { apply prefix_split. exists (x +:+ tail).
        rewrite Htail. change (String c (r +:+ tail)) with (String c r +:+ tail).
        by rewrite Hx, append_assoc. }
      congruence.
Qed.

Lemma filter_nonempty_chars (text : string) :
  List.filter nonempty (chars text) = chars text.
Proof.
  induction text as [| c rest IH]; [reflexivity |].
  cbn [chars List.filter]. by rewrite IH.
Qed.

(** The pieces of a cut: at the empty separator the characters of the
    text; at another one, what stands before its first occurrence and
    what follows each occurrence taken, with the occurrence in front, none
    of these holding an occurrence. *)
Lemma split_on_cut (sep text : string) :
  (sep = "" -> split_on sep text = chars text) /\
  (sep <> "" ->
   exists first rests,
     split_on sep text
     = List.filter nonempty (first :: map (String.append sep) rests) /\
     text = join "" (first :: map (String.append sep) rests) /\
     Forall (fun r => occurs sep r = false) (first :: rests)).
Proof.
  split.
  - intros ->. unfold split_on. simpl. apply filter_nonempty_chars.
  - intros Hsep.
    destruct (split_keep_cut sep (String.length text) text "" Hsep (le_n _))
      as (r & rests & tail & Hcut & _ & Hr & Hrests).
    exists r, rests. unfold split_on.
    apply String.eqb_neq in Hsep. rewrite Hsep.
    pose proof (join_split_keep sep text 0 "") as Hjoin.
    rewrite Hcut in *. change ("" +:+ r) with r in *.
    split; [done |]. split; [by rewrite Hjoin | by constructor].
Qed.

(** What stays of a full window is the longest tail of it that is within
    the overlap and leaves room for the piece that comes next. *)
Lemma drop_overlap_longest (len : nat) (cur gone : list string) (p : string) :
  cur = (gone ++ p :: drop_overlap ts len cur)%list ->
  chunk_overlap ts < total_len (p :: drop_overlap ts len cur) \/
  chunk_size ts < total_len (p :: drop_overlap ts len cur) + len.
Proof.
  revert gone. induction cur as [| x rest IH]; intros gone.
  - intros H. by destruct gone.
  - cbn [drop_overlap].
    destruct (Nat.ltb (chunk_overlap ts) (total_len (x :: rest))
              || (Nat.ltb (chunk_size ts) (total_len (x :: rest) + len)
                  && Nat.ltb 0 (total_len (x :: rest)))) eqn:Hcond.
    + intros Hcur. destruct gone as [| y gone].
      * simpl in Hcur. injection Hcur as <- Hrest. rewrite <- Hrest.
        apply orb_true_iff in Hcond as [Hov | Hroom].
        -- left. by apply Nat.ltb_lt.
        -- right. apply andb_true_iff in Hroom as [Hroom _]. by apply Nat.ltb_lt.
      * simpl in Hcur. injection Hcur as _ Hrest. by apply (IH gone).
    + intros Hcur. apply (f_equal length) in Hcur.
      rewrite length_app in Hcur. simpl in Hcur. lia.
Qed.

(** A window is closed when the piece that comes next does not fit, and
    the window after it opens with what the overlap keeps. *)
Lemma merge_windows_step (pieces cur : list string) (i : nat) (w w' : list string) :
  merge_windows ts cur pieces !! i = Some w ->
  merge_windows ts cur pieces !! S i = Some w' ->
  exists d more,
    w' = (drop_overlap ts (String.length d) w ++ d :: more)%list /\
    chunk_size ts < total_len w + String.length d.
Proof.
  revert cur i. induction pieces as [| d rest IH]; intros cur i; cbn [merge_windows].
  - intros _ Hnext. destruct i; discriminate.
  - destruct (Nat.ltb (chunk_size ts) (total_len cur + String.length d)) eqn:Hfull;
      [| apply IH].
    destruct i as [| i].
    + intros [= <-] Hnext. cbn in Hnext.
      destruct (merge_windows_head rest (drop_overlap ts (String.length d) cur ++ [d])%list)
        as (more & rest' & Hhead).
      rewrite Hhead in Hnext. injection Hnext as <-.
      exists d, more. split; [by rewrite <- app_assoc | by apply Nat.ltb_lt].
    + cbn. apply IH.
Qed.

(** The first window opens with what was there. *)
Lemma merge_windows_first (pieces cur : list string) :
  exists more tail,
    merge_windows ts cur pieces !! 0 = Some (cur ++ more)%list /\
    pieces = (more ++ tail)%list.
Proof.
  revert cur. induction pieces as [| d rest IH]; intros cur; cbn [merge_windows].
  - exists [], []. by rewrite app_nil_r.
  - destruct (Nat.ltb _ _).
    + exists [], (d :: rest). by rewrite app_nil_r.
    + destruct (IH (cur ++ [d])%list) as (more & tail & Hw & ->).
      exists (d :: more), tail. by rewrite <- app_assoc in Hw.
Qed.


(** The first separator of the list that occurs in the text is the one
    the text is cut at; the pieces are regrouped, the long ones cut
    again with the separators that follow. *)
Lemma split_text_at (before after : list string) (sep text : string) :
  Forall (fun s => occurs s text = false) before ->
  occurs sep text = true ->
  split_text ts (before ++ sep :: after) text
  = regroup ts (if String.eqb sep "" then fun s => [s] else split_text ts after) []
      (split_on sep text).
Proof.
  intros Hbefore Hsep. induction Hbefore as [| s before Hnone _ IH].
  - cbn [app split_text]. rewrite Hsep. by destruct (String.eqb sep "").
  - cbn [app split_text]. rewrite Hnone.
    destruct (String.eqb s "") eqn:Hs; [| exact IH].
    apply String.eqb_eq in Hs as ->. by rewrite occurs_empty in Hnone.
Qed.

Lemma regroup_windows (further : string -> list string) (short : list string) :
  Forall (fun p => String.length p < chunk_size ts) short ->
  regroup ts further [] short = flat_map emit (merge_windows ts [] short).
Proof.
  intros Hshort. rewrite regroup_short by exact Hshort.
  unfold merge_splits. simpl. apply merge_loop_windows.
Qed.

Lemma regroup_long (further : string -> list string) (splits good : list string)
    (long : string) (rest : list string) :
  Forall (fun p => String.length p < chunk_size ts) splits ->
  chunk_size ts <= String.length long ->
  regroup ts further good (splits ++ long :: rest)
  = (flat_map emit (merge_windows ts [] (good ++ splits))
     ++ further long ++ regroup ts further [] rest)%list.
Proof.
  revert good. induction splits as [| s splits IH]; intros good Hshort Hlong.
  - cbn [app regroup]. apply Nat.ltb_ge in Hlong. rewrite Hlong, app_nil_r.
    unfold merge_splits. by rewrite merge_loop_windows.
  - apply Forall_cons in Hshort as [Hs Hshort]. cbn [app regroup].
    apply Nat.ltb_lt in Hs. rewrite Hs, IH by done. by rewrite <- app_assoc.
Qed.

End ChunkerProperties.

(** C8, the counterexample: two paragraphs of 600 characters are two
    chunks, one paragraph each, and the second does not begin with any
    character the first ends with. *)
Lemma adjacent_chunks_without_overlap :
  exists first second,
    split_documents text_splitter [two_paragraphs] = [first; second] /\
    page_content first = repeated "a" 600 /\
    page_content second = repeated "b" 600 /\
    overlap_by 200 (page_content first) (page_content second) = false /\
    overlap_by 1 (page_content first) (page_content second) = false.
Proof.
  exists {| page_content := repeated "a" 600; metadata := metadata two_paragraphs |},
         {| page_content := repeated "b" 600; metadata := metadata two_paragraphs |}.
  split; [vm_compute; reflexivity |].
  split; [reflexivity |]. split; [reflexivity |].
  split; vm_compute; reflexivity.
Qed.

(** C8, amended: whatever the documents, every chunk the configured
    splitter produces is a part of the text of its document, not empty
    and at most 1000 characters long, and carries the metadata of the
    document.  A text under 1000 characters is one chunk, the text without
    the whitespace around it.  The text is cut at the first of the
    separators paragraph, line, word, character that occurs in it: at
    each occurrence taken, which stays in front of the piece that follows
    it, and between characters at the last one.  Runs of pieces under
    1000 characters are gathered into windows, whose texts, stripped, are
    the chunks; a piece of 1000 characters or more is cut again with the
    separators that follow.  The first window opens with the first piece;
    a window is closed when the next piece would bring it above 1000
    characters, and the window after it opens with the longest run of
    pieces at the end of it that measures at most 200 characters and
    leaves room for that piece, a run that can be empty, followed by that
    piece; every piece is in some window and the windows hold nothing
    else. *)
Theorem chunks_within_chunk_size (documents : list Document) :
  Forall (fun chunk =>
            1 <= String.length (page_content chunk) <= 1000 /\
            exists doc, In doc documents /\ metadata chunk = metadata doc /\
                        part_of (page_content chunk) (page_content doc))
         (split_documents text_splitter documents) /\
  (forall text, String.length text < 1000 ->
      split_text text_splitter (separators text_splitter) text
      = if nonempty (strip text) then [strip text] else []) /\
  (forall (before after : list string) (sep text : string),
      separators text_splitter = (before ++ sep :: after)%list ->
      Forall (fun s => occurs s text = false) before ->
      occurs sep text = true ->
      split_text text_splitter (separators text_splitter) text
      = regroup text_splitter
          (if String.eqb sep "" then fun s => [s] else split_text text_splitter after)
          [] (split_on sep text)) /\
  (forall (further : string -> list string) (short : list string),
      Forall (fun p => String.length p < 1000) short ->
      regroup text_splitter further [] short
      = flat_map emit (merge_windows text_splitter [] short) /\
      forall (long : string) (rest : list string),
        1000 <= String.length long ->
        regroup text_splitter further [] (short ++ long :: rest)
        = (flat_map emit (merge_windows text_splitter [] short)
           ++ further long ++ regroup text_splitter further [] rest)%list) /\
  (forall sep text : string,
      join "" (split_on sep text) = text /\
      (sep = "" -> split_on sep text = chars text) /\
      (sep <> "" ->
       exists first rests,
         split_on sep text
         = List.filter nonempty (first :: map (String.append sep) rests) /\
         text = join "" (first :: map (String.append sep) rests) /\
         Forall (fun r => occurs sep r = false) (first :: rests))) /\
  (forall pieces : list string,
      (exists more tail,
          merge_windows text_splitter [] pieces !! 0 = Some more /\
          pieces = (more ++ tail)%list) /\
      (forall (i : nat) (w w' : list string),
          merge_windows text_splitter [] pieces !! i = Some w ->
          merge_windows text_splitter [] pieces !! S i = Some w' ->
          exists gone d more,
            w = (gone ++ drop_overlap text_splitter (String.length d) w)%list /\
            w' = (drop_overlap text_splitter (String.length d) w ++ d :: more)%list /\
            1000 < total_len w + String.length d /\
            String.length (join "" (drop_overlap text_splitter (String.length d) w))
            <= 200 /\
            forall gone' p,
              gone = (gone' ++ [p])%list ->
              200 < total_len (p :: drop_overlap text_splitter (String.length d) w) \/
              1000 < total_len (p :: drop_overlap text_splitter (String.length d) w)
                     + String.length d) /\
      (forall p : string,
          In p pieces <->
          exists w, In w (merge_windows text_splitter [] pieces) /\ In p w)).
Proof.
  split; [| split; [| split; [| split; [| split]]]].
  - apply Forall_forall. intros chunk Hchunk.
    apply list_elem_of_In in Hchunk. unfold split_documents in Hchunk.
    apply in_flat_map in Hchunk as (doc & Hdoc & Hchunk).
    apply in_map_iff in Hchunk as (text & <- & Htext). simpl.
    pose proof (split_text_fits text_splitter (separators text_splitter)) as Hfits.
    specialize (Hfits ltac:(simpl; tauto) ltac:(simpl; lia) (page_content doc)).
    rewrite Forall_forall in Hfits.
    specialize (Hfits text (proj2 (list_elem_of_In _ _) Htext)). unfold fits in Hfits.
    apply split_text_In in Htext as [Hne Hpart].
    split; [| by exists doc].
    split; [| exact Hfits]. destruct text; [done | simpl; lia].
  - intros text Hlen. apply split_text_short; [simpl; tauto | exact Hlen].
  - intros before after sep text -> Hbefore Hsep. by apply split_text_at.
  - intros further short Hshort. split; [by apply regroup_windows |].
    intros long rest Hlong.
    by rewrite (regroup_long text_splitter further short [] long rest Hshort Hlong).
  - intros sep text. split; [apply join_split_on | apply split_on_cut].
  - intros pieces. split; [| split].
    + destruct (merge_windows_first text_splitter pieces []) as (more & tail & Hw & Hp).
      by exists more, tail.
    + intros i w w' Hw Hw'.
      destruct (merge_windows_step text_splitter pieces [] i w w' Hw Hw')
        as (d & more & Hnext & Hfull).
      destruct (drop_overlap_tail text_splitter (String.length d) w)
        as ((gone & Hgone) & Hlen).
      exists gone, d, more. split; [exact Hgone |]. split; [exact Hnext |].
      split; [exact Hfull |]. split; [by rewrite length_join_empty |].
      intros gone' p ->. apply (drop_overlap_longest text_splitter _ w gone').
      by rewrite <- app_assoc in Hgone.
    + intros p. apply (merge_windows_cover text_splitter pieces []).
Qed.

(** C8 on a short text, on a text cut at its spaces, and on the two
    windows of two paragraphs. *)
Lemma chunks_within_chunk_size_witness :
  split_text text_splitter (separators text_splitter) "  Ten years of Python. "
  = ["Ten years of Python."] /\
  split_text text_splitter (separators text_splitter) "Ten years of Python."
  = flat_map emit (merge_windows text_splitter [] ["Ten"; " years"; " of"; " Python."]) /\
  exists gone d more,
    [repeated "a" 600]
    = (gone ++ drop_overlap text_splitter (String.length d) [repeated "a" 600])%list /\
    [nl +:+ nl +:+ repeated "b" 600]
    = (drop_overlap text_splitter (String.length d) [repeated "a" 600] ++ d :: more)%list /\
    String.length (join "" (drop_overlap text_splitter (String.length d) [repeated "a" 600]))
    <= 200.
Proof.
  destruct (chunks_within_chunk_size []) as (_ & Hshort & Hfirst & Hregroup & _ & Hwindows).
  split; [| split].
  - apply (Hshort "  Ten years of Python. "). simpl. lia.
  - rewrite (Hfirst [nl +:+ nl; nl] [""] " " "Ten years of Python.");
      [| reflexivity | repeat constructor | reflexivity].
    apply Hregroup.
    change (split_on " " "Ten years of Python.")
      with ["Ten"; " years"; " of"; " Python."].
    repeat (constructor; [simpl; lia |]). constructor.
  - destruct (proj1 (proj2 (Hwindows [repeated "a" 600; nl +:+ nl +:+ repeated "b" 600]))
                0 [repeated "a" 600] [nl +:+ nl +:+ repeated "b" 600])
      as (gone & d & more & Hgone & Hnext & _ & Hlen & _);
      [vm_compute; reflexivity | vm_compute; reflexivity |].
    by exists gone, d, more.
Defined.

(** ** Chunk ids *)




Lemma slice_take_drop {A : Type} (i len : nat) (l : list A) :
  slice i (i + len) l = take len (drop i l).
Proof. unfold slice. f_equal. lia. Qed.

(** Consecutive slices of width [b] put end to end. *)
Lemma concat_slices {A : Type} (b k start : nat) (l : list A) :
  concat (map (fun j => slice (j * b) (j * b + b) l) (seq start k))
  = take (k * b) (drop (start * b) l).
Proof.
  revert start. induction k as [| k IH]; intros start; [reflexivity |].
  cbn [seq map concat]. rewrite IH, slice_take_drop.
  replace (S start * b) with (start * b + b) by lia.
  rewrite <- drop_drop, take_take_drop. f_equal; lia.
Qed.

(** The rounds of the storing loop cut a list into consecutive slices
    and lose nothing. *)
Lemma concat_batch_slices {A : Type} (n : nat) (l : list A) :
  length l = n ->
  concat (map (fun i => slice i (i + batch_size) l) (range_step n batch_size)) = l.
Proof.
  intros Hn. unfold range_step. rewrite map_map.
  rewrite (concat_slices batch_size _ 0 l). simpl drop.
  apply take_ge. unfold batch_size.
  pose proof (Nat.div_mod_eq (n + 100 - 1) 100) as Hdiv.
  pose proof (Nat.mod_upper_bound (n + 100 - 1) 100) as Hmod. lia.
Qed.

Lemma length_chunk_ids (chunks : list Document) :
  length (chunk_ids chunks) = length chunks.
Proof. unfold chunk_ids. by rewrite length_map, length_seq. Qed.

Lemma batch_ids_concat (chunks : list Document) :
  concat (map batch_ids (batches chunks)) = chunk_ids chunks.
Proof.
  unfold batches. rewrite map_map. simpl.
  apply concat_batch_slices. by rewrite length_chunk_ids, length_map.
Qed.



(** A round that fails is left behind and the loop goes on: the storing
    loop itself never raises. *)
Lemma store_batches_returns {World Vec : Type}
    (self : DataIngestionEngine World Vec) (bs : list Batch) (s : State World) :
  (store_batches self bs s).1 = Ok tt.
Proof.
  revert s. induction bs as [| b rest IH]; intros s; [reflexivity |].
  cbn [store_batches]. unfold bind.
  assert (Hb : (store_batch self b s).1 = Ok tt).
  { unfold store_batch, try_except, bind, call, ret.
    destruct (embed_documents self (batch_texts b) (world s)) as [[embeddings | e] w1];
      simpl; [| reflexivity].
    destruct (collection_add self b embeddings w1) as [[[] | e] w2]; reflexivity. }
  destruct (store_batch self b s) as [[[] | e] s1]; simpl in Hb; [apply IH | discriminate].
Qed.

Section StoringCalls.

Context {World : Type} {Vec : Type}.
Implicit Types (self : DataIngestionEngine World Vec) (s : State World).

Lemma store_batch_calls self (b : Batch) s :
  exists new,
    calls (store_batch self b s).2 = (calls s ++ new)%list /\
    embedded_texts new = [batch_texts b] /\
    ((exists vs w', embed_documents self (batch_texts b) (world s) = (Ok vs, w')) ->
     added_ids new = batch_ids b).
Proof.
  unfold store_batch, try_except, bind, call, ret.
  destruct (embed_documents self (batch_texts b) (world s)) as [[vs | e] w1] eqn:He;
    simpl.
  - exists [EvEmbedDocuments (batch_texts b); EvAdd (batch_ids b)].
    split; [| split].
    + destruct (collection_add self b vs w1) as [[[] | e] w2]; simpl;
        by rewrite <- app_assoc.
    + reflexivity.
    + intros _. simpl. by rewrite app_nil_r.
  - exists [EvEmbedDocuments (batch_texts b)].
    split; [done |]. split; [done |]. intros (vs & w' & H). discriminate.
Qed.

Lemma embedded_texts_app (a b : list Event) :
  embedded_texts (a ++ b) = (embedded_texts a ++ embedded_texts b)%list.
Proof. unfold embedded_texts. by rewrite flat_map_app. Qed.

Lemma added_ids_app (a b : list Event) :
  added_ids (a ++ b) = (added_ids a ++ added_ids b)%list.
Proof. unfold added_ids. by rewrite flat_map_app. Qed.

Lemma store_batches_calls self (bs : list Batch) s :
  exists new,
    calls (store_batches self bs s).2 = (calls s ++ new)%list /\
    embedded_texts new = map batch_texts bs /\
    ((forall texts w, exists vs w', embed_documents self texts w = (Ok vs, w')) ->
     added_ids new = concat (map batch_ids bs)).
Proof.
  revert s. induction bs as [| b rest IH]; intros s.
  - exists []. simpl. by rewrite app_nil_r.
  - cbn [store_batches]. unfold bind.
    destruct (store_batch_calls self b s) as (new1 & Hcalls1 & Htexts1 & Hids1).
    pose proof (store_batches_returns self [b] s) as Hret.
    cbn [store_batches] in Hret. unfold bind in Hret.
    destruct (store_batch self b s) as [[[] | e] s1]; simpl in *; [| discriminate].
    destruct (IH s1) as (new2 & Hcalls2 & Htexts2 & Hids2).
    exists (new1 ++ new2)%list. split; [| split].
    + by rewrite Hcalls2, Hcalls1, app_assoc.
    + by rewrite embedded_texts_app, Htexts1, Htexts2.
    + intros Hembed. rewrite added_ids_app, Hids1, Hids2; [done | done |].
      apply Hembed.
Qed.




End StoringCalls.


(** A run of 150 chunks whose first round fails at the embedding stores
    the fifty chunks of the second round, under the ids of their
    positions. *)
Example failed_round_leaves_its_ids_out :
  added_ids
    (calls (process_and_store_documents first_round_fails
              (map (fun i => mkDocument (str_nat i) ∅) (seq 0 150)) start).2)
  = map chunk_id (seq 100 50).
Proof. vm_compute. reflexivity. Qed.

(** ** The chunker and the storing loop at work *)

Example split_words :
  split_text small_splitter (separators small_splitter) "aa bb cc dd ee ff gg hh"
  = ["aa bb cc"; "cc dd ee"; "ee ff gg"; "gg hh"].
Proof. reflexivity. Qed.

Example split_characters :
  split_text small_splitter (separators small_splitter) "abcdefghijklmnopqrstuvwxyz"
  = ["abcdefghij"; "hijklmnopq"; "opqrstuvwx"; "vwxyz"].
Proof. reflexivity. Qed.

Example batches_of_250 :
  map (fun b => length (batch_ids b))
      (batches (map (fun i => mkDocument (str_nat i) ∅) (seq 0 250)))
  = [100; 100; 50].
Proof. vm_compute. reflexivity. Qed.

Example refused_batches_are_skipped :
  process_and_store_documents refusing_engine
    [mkDocument "Ten years of Python." notes_metadata] start
  = (Ok tt,
     {| world := tt;
        calls := [EvEmbedDocuments ["Ten years of Python."]; EvAdd ["chunk_0"]] |}).
Proof. vm_compute. reflexivity. Qed.

(** * Further properties of the agent *)

(** ** Labels on incomplete metadata *)

Lemma add_one_raises (v : Scalar) :
  (exists e, add_one v = Raise e) <-> (v = SNone \/ exists s, v = SStr s).
Proof.
  destruct v as [| b | z | s]; simpl; split.
  - intros _. by left.
  - intros _. by eexists.
  - intros [e He]. discriminate.
  - intros [H | [s H]]; discriminate.
  - intros [e He]. discriminate.
  - intros [H | [s H]]; discriminate.
  - intros _. right. by eexists.
  - intros _. by eexists.
Qed.

(** X1: the label of a record cannot be computed in one case only: a
    PDF record whose [page] is [None] or a non-empty string, on which
    [page + 1] is a [TypeError].  On every other record a label comes
    back. *)
Theorem label_raises_iff (md : gmap string Scalar) :
  (exists e, _extract_source_info md = Raise e) <->
  (md !! "source_type" = Some (SStr "pdf") /\
   (md !! "page" = Some SNone \/
    exists s, md !! "page" = Some (SStr s) /\ s <> "")).
Proof.
  unfold _extract_source_info.
  destruct (eq_str (get md "source_type" (SStr "unknown")) "pdf") eqn:Hpdf.
  - apply eq_str_true in Hpdf.
    assert (Htype : md !! "source_type" = Some (SStr "pdf")).
    { unfold get in Hpdf. destruct (md !! "source_type"); simpl in Hpdf; congruence. }
    unfold get.
    destruct (md !! "page") as [page |] eqn:Hpage; simpl.
    + destruct page as [| b | z | s]; simpl.
      * split; [intros _; split; [done | by left] | intros _; by eexists].
      * split; [intros [e He]; discriminate |].
        intros [_ [H | (s & H & _)]]; discriminate.
      * split; [intros [e He]; discriminate |].
        intros [_ [H | (s & H & _)]]; discriminate.
      * destruct (String.eqb s "") eqn:Hs; simpl.
        -- apply String.eqb_eq in Hs as ->.
           split; [intros [e He]; discriminate |].
           intros [_ [H | (s & H & Hne)]]; [discriminate | congruence].
        -- apply String.eqb_neq in Hs.
           split; [| intros _; by eexists].
           intros _. split; [done |]. right. by exists s.
    + split; [intros [e He]; discriminate |].
      intros [_ [H | (s & H & _)]]; discriminate.
  - apply eq_str_false in Hpdf.
    split.
    + intros [e He]. repeat case_match; discriminate.
    + intros [Htype _]. exfalso. apply Hpdf. unfold get. by rewrite Htype.
Qed.

(** X2: labels on records with fields missing.  A PDF record with no
    [page] (or an empty one) is labelled with its source alone, and
    [Unknown PDF] without a source; a text record without a source is
    [Unknown Text File]; a blog record with no url, or an empty one, is
    labelled with its title alone, [Blog Post] without a title; a github
    record without [repo_name] is [GitHub: Unknown Repository]. *)
Theorem label_defaults (md : gmap string Scalar) :
  (md !! "source_type" = Some (SStr "pdf") ->
   md !! "page" = None \/ md !! "page" = Some (SStr "") ->
   _extract_source_info md
   = Ok (SStr (py_str (default (SStr "Unknown PDF") (md !! "source"))))) /\
  (md !! "source_type" = Some (SStr "text") ->
   md !! "source" = None ->
   _extract_source_info md = Ok (SStr "Unknown Text File")) /\
  (md !! "source_type" = Some (SStr "blog") ->
   md !! "url" = None \/ md !! "url" = Some (SStr "") ->
   _extract_source_info md = Ok (default (SStr "Blog Post") (md !! "title"))) /\
  (md !! "source_type" = Some (SStr "github") ->
   md !! "repo_name" = None ->
   _extract_source_info md = Ok (SStr "GitHub: Unknown Repository")).
Proof.
  unfold _extract_source_info, get.
  split; [| split; [| split]].
  - intros -> [-> | ->]; simpl; by rewrite append_empty_r.
  - intros -> ->. reflexivity.
  - intros -> [-> | ->]; reflexivity.
  - intros -> ->. reflexivity.
Qed.

Lemma label_defaults_witness :
  _extract_source_info
    (<["source_type" := SStr "pdf"]> (<["source" := SStr "cv.pdf"]> ∅))
  = Ok (SStr "cv.pdf") /\
  _extract_source_info (<["source_type" := SStr "text"]> ∅)
  = Ok (SStr "Unknown Text File") /\
  _extract_source_info
    (<["source_type" := SStr "blog"]> (<["url" := SStr ""]> ∅))
  = Ok (SStr "Blog Post") /\
  _extract_source_info (<["source_type" := SStr "github"]> ∅)
  = Ok (SStr "GitHub: Unknown Repository").
Proof.
  split; [| split; [| split]].
  - rewrite (proj1 (label_defaults
               (<["source_type" := SStr "pdf"]> (<["source" := SStr "cv.pdf"]> ∅))));
      [reflexivity | reflexivity | left; reflexivity].
  - apply (proj1 (proj2 (label_defaults (<["source_type" := SStr "text"]> ∅))));
      reflexivity.
  - rewrite (proj1 (proj2 (proj2 (label_defaults
               (<["source_type" := SStr "blog"]> (<["url" := SStr ""]> ∅))))));
      [reflexivity | reflexivity | right; reflexivity].
  - apply (proj2 (proj2 (proj2 (label_defaults (<["source_type" := SStr "github"]> ∅)))));
      reflexivity.
Defined.

(** ** What a chat calls, and in which order *)

Section ChatCalls.

Context {World : Type} {Vec : Type}.
Implicit Types (self : VitaeAgent World Vec) (s : State World).

Lemma bind_assoc {A B C} (m : @Eff World A) (k1 : A -> Eff B) (k2 : B -> Eff C) s :
  bind (bind m k1) k2 s = bind m (fun a => bind (k1 a) k2) s.
Proof. unfold bind. destruct (m s) as [[a | e] s1]; reflexivity. Qed.

Lemma grows_ret {A} (a : A) : grows (World := World) (ret a).
Proof. intros s. exists []. simpl. by rewrite app_nil_r. Qed.

Lemma grows_lift {A} (o : outcome A) : grows (World := World) (lift o).
Proof. intros s. exists []. simpl. by rewrite app_nil_r. Qed.

Lemma grows_call {A} ev (f : World -> outcome A * World) : grows (call ev f).
Proof.
  intros s. exists [ev]. unfold call. by destruct (f (world s)).
Qed.

Lemma grows_bind {A B} (m : @Eff World A) (k : A -> @Eff World B) :
  grows m -> (forall a, grows (k a)) -> grows (bind m k).
Proof.
  intros Hm Hk s. unfold bind. destruct (Hm s) as [new1 H1].
  destruct (m s) as [[a | e] s1]; simpl in *.
  - destruct (Hk a s1) as [new2 H2]. exists (new1 ++ new2)%list.
    by rewrite H2, H1, app_assoc.
  - by exists new1.
Qed.

(** The first call of a computation that starts with one. *)
Lemma bind_call_first {A B} ev (f : World -> outcome A * World)
    (k : A -> @Eff World B) s :
  (forall a, grows (k a)) ->
  exists rest, calls (bind (call ev f) k s).2 = (calls s ++ ev :: rest)%list.
Proof.
  intros Hk. unfold bind, call. destruct (f (world s)) as [[a | e] w1]; simpl.
  - destruct (Hk a {| world := w1; calls := calls s ++ [ev] |}) as [new Hnew].
    exists new. rewrite Hnew. simpl. by rewrite <- app_assoc.
  - by exists [].
Qed.

(** What [translate_text] records is calls to the translator, if
    anything. *)
Lemma translate_text_calls self text target s :
  exists tnew,
    calls (translate_text self text target s).2 = (calls s ++ tnew)%list /\
    Forall (fun ev => is_translator_event ev = true) tnew.
Proof.
  unfold translate_text.
  destruct (translator self) as [tr |];
    [| exists []; simpl; by rewrite app_nil_r].
  destruct (is_english target); [exists []; simpl; by rewrite app_nil_r |].
  unfold try_except, bind, call, subscript, ret, raise.
  destruct (detect tr text (world s)) as [[d | e] w1]; simpl;
    [| exists [EvDetect text]; split; [done | by repeat constructor]].
  destruct (d !! "language") as [src |]; simpl;
    [| exists [EvDetect text]; split; [done | by repeat constructor]].
  destruct (String.eqb src target); simpl;
    [exists [EvDetect text]; split; [done | by repeat constructor] |].
  exists [EvDetect text; EvTranslate text target src].
  split; [| by repeat constructor].
  destruct (translate tr text target src w1) as [[r | e] w2]; simpl;
    [destruct (r !! "translatedText") |]; simpl; by rewrite <- app_assoc.
Qed.

Lemma grows_translate_text self text target : grows (translate_text self text target).
Proof.
  intros s. destruct (translate_text_calls self text target s) as (tnew & H & _).
  by exists tnew.
Qed.

Lemma grows_get_relevant_documents self query :
  grows (get_relevant_documents self query).
Proof.
  apply grows_bind; [apply grows_call | intros; apply grows_ret].
Qed.

Lemma chat_try_Ok_answer self query language s answer s' :
  chat_try self query language s = (Ok answer, s') ->
  exists final_response sources,
    answer = success_answer final_response sources query language.
Proof. apply chat_try_Ok. Qed.

(** X3: the query is never translated.  Whatever the language and the
    translator, the processed query of the answer is the query as it came,
    and the first call a chat makes is the embedding of that very query
    for the retriever. *)
Theorem chat_query_never_translated self query language s :
  (chat self query language s).1 !! "processed_query" = Some (VStr query) /\
  (chat self query language s).1 !! "original_query" = Some (VStr query) /\
  exists rest,
    calls (chat self query language s).2
    = (calls s ++ EvEmbedQuery query :: rest)%list.
Proof.
  split; [| split].
  - unfold chat.
    destruct (chat_try self query language s) as [[answer | e] s'] eqn:Htry; simpl.
    + apply chat_try_Ok_answer in Htry as (final & sources & ->).
      unfold success_answer. by simplify_map_eq.
    + apply chat_except_fields.
  - unfold chat.
    destruct (chat_try self query language s) as [[answer | e] s'] eqn:Htry; simpl.
    + apply chat_try_Ok_answer in Htry as (final & sources & ->).
      unfold success_answer. by simplify_map_eq.
    + apply chat_except_fields.
  - assert (Hcalls : exists rest,
               calls (chat_try self query language s).2
               = (calls s ++ EvEmbedQuery query :: rest)%list).
    { rewrite chat_try_steps. unfold rag_chain_invoke, get_relevant_documents.
      rewrite !bind_assoc. apply bind_call_first.
      intros v. apply grows_bind; [apply grows_ret |].
      intros docs. apply grows_bind.
      { apply grows_bind; [apply grows_lift | intros; apply grows_call]. }
      intros response. apply grows_bind.
      { destruct (needs_translation self language);
          [apply grows_translate_text | apply grows_ret]. }
      intros final. apply grows_bind; [apply grows_get_relevant_documents |].
      intros source_docs. apply grows_bind; [apply grows_lift |].
      intros sources. apply grows_ret. }
    unfold chat.
    destruct (chat_try self query language s) as [[answer | e] s']; exact Hcalls.
Qed.

End ChatCalls.

(** ** Runs of a chat *)

Section ChatRuns.

Context {World : Type} {Vec : Type}.
Implicit Types (self : VitaeAgent World Vec) (s : State World).

Lemma for_each_length {A B} (f : A -> outcome B) (l : list A) (r : list B) :
  for_each f l = Ok r -> length r = length l.
Proof.
  revert r. induction l as [| x l IH]; intros r; simpl.
  - intros [= <-]. reflexivity.
  - destruct (f x) as [y | e]; [| discriminate].
    destruct (for_each f l) as [ys | e]; [| discriminate].
    intros [= <-]. simpl. by rewrite (IH ys).
Qed.

Lemma retrieval_run self query s v w1 :
  embed_query self query (world s) = (Ok v, w1) ->
  get_relevant_documents self query s
  = (Ok (map entry_document (index_query self v 5)),
     {| world := w1; calls := calls s ++ [EvEmbedQuery query] |}).
Proof.
  intros Hv. unfold get_relevant_documents, bind, call, ret. by rewrite Hv.
Qed.

Lemma retrieval_Ok self query s docs s1 :
  get_relevant_documents self query s = (Ok docs, s1) ->
  length docs = Nat.min 5 (count self) /\
  calls s1 = (calls s ++ [EvEmbedQuery query])%list.
Proof.
  unfold get_relevant_documents, bind, call, ret.
  destruct (embed_query self query (world s)) as [[v | e] w1]; [| discriminate].
  intros [= <- <-]. simpl. by rewrite length_map, length_index_query.
Qed.

Lemma rag_chain_run self question s v w1 context r w2 :
  embed_query self question (world s) = (Ok v, w1) ->
  format_docs (map entry_document (index_query self v 5)) = Ok context ->
  llm_invoke self (system_prompt self) (human_prompt context question) w1 = (r, w2) ->
  rag_chain_invoke self question s
  = (r, {| world := w2;
           calls := calls s ++ [EvEmbedQuery question;
                                EvInvoke (system_prompt self)
                                         (human_prompt context question)] |}).
Proof.
  intros Hv Hc Hr. unfold rag_chain_invoke. unfold bind at 1.
  rewrite (retrieval_run _ _ _ _ _ Hv). unfold bind, lift, call. rewrite Hc.
  simpl. rewrite Hr. by rewrite <- app_assoc.
Qed.

Lemma rag_chain_Ok self question s r s2 :
  rag_chain_invoke self question s = (Ok r, s2) ->
  exists context,
    calls s2 = (calls s ++ [EvEmbedQuery question;
                            EvInvoke (system_prompt self)
                                     (human_prompt context question)])%list.
Proof.
  unfold rag_chain_invoke, get_relevant_documents, bind, call, ret, lift.
  destruct (embed_query self question (world s)) as [[v | e] w1]; [| discriminate].
  simpl. destruct (format_docs _) as [context | e]; [| discriminate].
  simpl. destruct (llm_invoke _ _ _ _) as [[r' | e] w2]; [| discriminate].
  intros [= <- <-]. exists context. simpl. by rewrite <- app_assoc.
Qed.

(** The step that translates the response back, or leaves it. *)
Lemma response_step_calls self response language s :
  exists tnew,
    calls ((if needs_translation self language
            then translate_text self response language
            else ret response) s).2 = (calls s ++ tnew)%list /\
    Forall (fun ev => is_translator_event ev = true) tnew /\
    (needs_translation self language = false -> tnew = []).
Proof.
  destruct (needs_translation self language).
  - destruct (translate_text_calls self response language s) as (tnew & H & Ht).
    exists tnew. by repeat split.
  - exists []. simpl. by rewrite app_nil_r.
Qed.

(** What a chat that went through has done. *)
Lemma chat_try_inv self query language s answer s' :
  chat_try self query language s = (Ok answer, s') ->
  exists context tnew final_response sources,
    answer = success_answer final_response sources query language /\
    length sources = Nat.min 5 (count self) /\
    calls s' = (calls s
                ++ [EvEmbedQuery query;
                    EvInvoke (system_prompt self) (human_prompt context query)]
                ++ tnew ++ [EvEmbedQuery query])%list /\
    Forall (fun ev => is_translator_event ev = true) tnew /\
    (needs_translation self language = false -> tnew = []).
Proof.
  rewrite chat_try_steps. unfold bind at 1.
  destruct (rag_chain_invoke self query s) as [[response | e] s2] eqn:Hrag;
    [| discriminate].
  apply rag_chain_Ok in Hrag as [context Hs2].
  unfold bind at 1.
  destruct (response_step_calls self response language s2) as (tnew & Hs3 & Ht & Hnone).
  destruct ((if needs_translation self language
             then translate_text self response language
             else ret response) s2) as [[final | e] s3]; [| discriminate].
  simpl in Hs3. unfold bind at 1.
  destruct (get_relevant_documents self query s3) as [[docs | e] s4] eqn:Hdocs;
    [| discriminate].
  apply retrieval_Ok in Hdocs as [Hlen Hs4].
  unfold bind, lift, ret.
  destruct (for_each source_entry docs) as [sources | e] eqn:Hsources;
    [| discriminate].
  intros [= <- <-]. exists context, tnew, final, sources.
  split; [reflexivity |]. split.
  { by rewrite (for_each_length _ _ _ Hsources). }
  split; [| by split].
  rewrite Hs4, Hs3, Hs2. by rewrite <- !app_assoc.
Qed.

Lemma chat_no_error self query language s :
  (chat self query language s).1 !! "error" = None ->
  exists answer s', chat_try self query language s = (Ok answer, s') /\
                    chat self query language s = (answer, s').
Proof.
  unfold chat.
  destruct (chat_try self query language s) as [[answer | e] s']; simpl.
  - intros _. by exists answer, s'.
  - destruct (chat_except_fields query language e) as (_ & _ & _ & _ & _ & He & _).
    rewrite He. discriminate.
Qed.

(** X4: an answer without [error] lists as many sources as the
    retriever returns: five, or all the entries of the collection when it
    holds fewer, and [source_count] is that number. *)
Theorem chat_source_count self query language s :
  (chat self query language s).1 !! "error" = None ->
  exists sources,
    (chat self query language s).1 !! "sources" = Some (VList sources) /\
    length sources = Nat.min 5 (count self) /\
    (chat self query language s).1 !! "source_count"
    = Some (VInt (Z.of_nat (Nat.min 5 (count self)))).
Proof.
  intros Herr. destruct (chat_no_error _ _ _ _ Herr) as (answer & s' & Htry & ->).
  apply chat_try_inv in Htry as (context & tnew & final & sources & -> & Hlen & _).
  exists sources. rewrite <- Hlen. cbn [fst]. unfold success_answer.
  repeat split; by simplify_map_eq.
Qed.

(** X6: a chat that goes through embeds the query twice and invokes the
    language model once, in that order: embedding, model, then the calls
    to the translator if there are any, then the embedding again for the
    source list.  Nothing is kept from the first retrieval. *)
Theorem chat_calls_on_success self query language s :
  (chat self query language s).1 !! "error" = None ->
  exists context tnew,
    calls (chat self query language s).2
    = (calls s
       ++ [EvEmbedQuery query;
           EvInvoke (system_prompt self) (human_prompt context query)]
       ++ tnew ++ [EvEmbedQuery query])%list /\
    Forall (fun ev => is_translator_event ev = true) tnew /\
    (needs_translation self language = false -> tnew = []).
Proof.
  intros Herr. destruct (chat_no_error _ _ _ _ Herr) as (answer & s' & Htry & ->).
  apply chat_try_inv in Htry
    as (context & tnew & final & sources & _ & _ & Hcalls & Ht & Hnone).
  by exists context, tnew.
Qed.

End ChatRuns.

Lemma chat_source_count_witness :
  exists sources,
    (chat (working_agent 7 None) "What did you build?" "en" start).1 !! "sources"
    = Some (VList sources) /\
    length sources = 5 /\
    (chat (working_agent 3 None) "What did you build?" "en" start).1 !! "source_count"
    = Some (VInt 3).
Proof.
  destruct (chat_source_count (working_agent 7 None) "What did you build?" "en" start)
    as (sources & Hs & Hlen & _); [vm_compute; reflexivity |].
  destruct (chat_source_count (working_agent 3 None) "What did you build?" "en" start)
    as (_ & _ & _ & Hcount); [vm_compute; reflexivity |].
  exists sources. split; [exact Hs |]. split; [exact Hlen | exact Hcount].
Defined.

Lemma chat_calls_on_success_witness :
  exists context,
    calls (chat (working_agent 3 None) "What did you build?" "fr" start).2
    = [EvEmbedQuery "What did you build?";
       EvInvoke "You are the VitaeAgent." (human_prompt context "What did you build?");
       EvEmbedQuery "What did you build?"].
Proof.
  destruct (chat_calls_on_success (working_agent 3 None) "What did you build?" "fr" start)
    as (context & tnew & Hcalls & _ & Hnone); [vm_compute; reflexivity |].
  exists context. rewrite Hcalls, Hnone; reflexivity.
Defined.

(** ** Content previews *)

Lemma length_substring_0 (n : nat) (text : string) :
  String.length (String.substring 0 n text) = Nat.min n (String.length text).
Proof.
  revert n. induction text as [| c text IH]; intros [| n]; simpl; try reflexivity.
  by rewrite IH.
Qed.

(** X5: the preview of a source is its content when that is at most 200
    characters long; otherwise it is the first 200 characters followed by
    three dots, 203 characters in all. *)
Theorem content_preview_bound (doc : Document) (entry : PyVal) :
  source_entry doc = Ok entry ->
  exists d preview,
    entry = VDict d /\
    d !! "content_preview" = Some (VStr preview) /\
    String.length preview <= 203 /\
    (String.length (page_content doc) <= 200 -> preview = page_content doc) /\
    (200 < String.length (page_content doc) ->
     preview = str_take 200 (page_content doc) +:+ "..." /\
     String.length preview = 203).
Proof.
  unfold source_entry.
  destruct (_extract_source_info (metadata doc)) as [source_info | e]; [| discriminate].
  intros [= <-].
  destruct (Nat.ltb 200 (String.length (page_content doc))) eqn:Hlong.
  - apply Nat.ltb_lt in Hlong.
    assert (Hlen : String.length (str_take 200 (page_content doc) +:+ "...") = 203).
    { rewrite length_append. unfold str_take. rewrite length_substring_0.
      change (String.length "...") with 3. lia. }
    eexists _, (str_take 200 (page_content doc) +:+ "..."). split; [reflexivity |].
    split; [by simplify_map_eq |].
    split; [lia |]. split; [intros ?; exfalso; lia | done].
  - apply Nat.ltb_ge in Hlong.
    eexists _, (page_content doc). split; [reflexivity |].
    split; [by simplify_map_eq |].
    split; [lia |]. split; [done | intros ?; exfalso; lia].
Qed.

Lemma content_preview_bound_witness :
  exists d preview,
    source_entry (mkDocument "Ten years of Python." notes_metadata) = Ok (VDict d) /\
    d !! "content_preview" = Some (VStr preview) /\
    preview = "Ten years of Python.".
Proof.
  destruct (content_preview_bound
              (mkDocument "Ten years of Python." notes_metadata)
              (VDict (<["source" := VStr "notes.txt"]>
                        (<["content_preview" := VStr "Ten years of Python."]> ∅)))
              eq_refl)
    as (d & preview & Hd & Hp & _ & Hshort & _).
  exists d, preview. split; [by rewrite <- Hd |]. split; [exact Hp |].
  apply Hshort. simpl. lia.
Defined.

(** ** Translation, step by step *)

Section TranslationRuns.

Context {World : Type} {Vec : Type}.
Implicit Types (self : VitaeAgent World Vec) (s : State World).

Lemma translate_text_translates_aux self text target s tr d w1 source r w2 translated :
  translator self = Some tr ->
  is_english target = false ->
  detect tr text (world s) = (Ok d, w1) ->
  d !! "language" = Some source ->
  source <> target ->
  translate tr text target source w1 = (Ok r, w2) ->
  r !! "translatedText" = Some translated ->
  translate_text self text target s
  = (Ok translated,
     {| world := w2;
        calls := calls s ++ [EvDetect text; EvTranslate text target source] |}).
Proof.
  intros Htr Hen Hd Hsrc Hne Hr Ht. unfold translate_text. rewrite Htr, Hen.
  unfold try_except, bind, call, subscript, ret. rewrite Hd. simpl.
  rewrite Hsrc. simpl. apply String.eqb_neq in Hne. rewrite Hne. simpl.
  rewrite Hr. simpl. rewrite Ht. simpl. by rewrite <- app_assoc.
Qed.

Lemma translate_text_stops_after_detect_aux self text target s tr r w1 :
  translator self = Some tr ->
  is_english target = false ->
  detect tr text (world s) = (r, w1) ->
  match r with
  | Ok d => d !! "language" = None \/ d !! "language" = Some target
  | Raise _ => True
  end ->
  translate_text self text target s
  = (Ok text, {| world := w1; calls := calls s ++ [EvDetect text] |}).
Proof.
  intros Htr Hen Hd Hr. unfold translate_text. rewrite Htr, Hen.
  unfold try_except, bind, call, subscript, ret, raise. rewrite Hd.
  destruct r as [d | e]; simpl; [| reflexivity].
  destruct Hr as [-> | ->]; simpl; [reflexivity |].
  by rewrite String.eqb_refl.
Qed.

(** X7: with a translator, a target that is not English and a text
    detected in another language, [translate_text] asks for the detection,
    then for the translation from the detected language, and returns the
    [translatedText] of the reply. *)
Theorem translate_text_translates self text target s tr d w1 source r w2 translated :
  translator self = Some tr ->
  is_english target = false ->
  detect tr text (world s) = (Ok d, w1) ->
  d !! "language" = Some source ->
  source <> target ->
  translate tr text target source w1 = (Ok r, w2) ->
  r !! "translatedText" = Some translated ->
  translate_text self text target s
  = (Ok translated,
     {| world := w2;
        calls := calls s ++ [EvDetect text; EvTranslate text target source] |}).
Proof. apply translate_text_translates_aux. Qed.

(** X8: the translation is not requested when the detection raises,
    when its reply has no [language], or when the language it names is the
    target: the text comes back after the one call to [detect]. *)
Theorem translate_text_stops_after_detect self text target s tr r w1 :
  translator self = Some tr ->
  is_english target = false ->
  detect tr text (world s) = (r, w1) ->
  match r with
  | Ok d => d !! "language" = None \/ d !! "language" = Some target
  | Raise _ => True
  end ->
  translate_text self text target s
  = (Ok text, {| world := w1; calls := calls s ++ [EvDetect text] |}).
Proof. apply translate_text_stops_after_detect_aux. Qed.

End TranslationRuns.

Lemma translate_text_translates_witness :
  translate_text (working_agent 3 (Some working_translator)) "Hello" "fr" start
  = (Ok "[fr] Hello",
     {| world := tt; calls := [EvDetect "Hello"; EvTranslate "Hello" "fr" "en"] |}).
Proof.
  eapply (translate_text_translates
            (working_agent 3 (Some working_translator)) "Hello" "fr" start);
    [reflexivity | reflexivity | reflexivity | reflexivity | discriminate
     | reflexivity | reflexivity].
Defined.

Lemma translate_text_stops_after_detect_witness :
  translate_text (working_agent 3 (Some broken_translator)) "Hello" "fr" start
  = (Ok "Hello", {| world := tt; calls := [EvDetect "Hello"] |}) /\
  translate_text (working_agent 3 (Some french_detector)) "Bonjour" "fr" start
  = (Ok "Bonjour", {| world := tt; calls := [EvDetect "Bonjour"] |}).
Proof.
  split.
  - eapply (translate_text_stops_after_detect
              (working_agent 3 (Some broken_translator)) "Hello" "fr" start);
      [reflexivity | reflexivity | reflexivity | exact I].
  - eapply (translate_text_stops_after_detect
              (working_agent 3 (Some french_detector)) "Bonjour" "fr" start);
      [reflexivity | reflexivity | reflexivity | right; reflexivity].
Defined.

(** ** Whole runs of a chat *)

Section ChatScenarios.

Context {World : Type} {Vec : Type}.
Implicit Types (self : VitaeAgent World Vec) (s : State World).

Lemma index_query_empty self q k : collection self = [] -> index_query self q k = [].
Proof. intros Hempty. unfold index_query. rewrite Hempty. by destruct k. Qed.

(** The [try] block from the point where the language model has
    answered. *)
Lemma chat_try_after_model self query language s v w1 context response w2 :
  embed_query self query (world s) = (Ok v, w1) ->
  format_docs (map entry_document (index_query self v 5)) = Ok context ->
  llm_invoke self (system_prompt self) (human_prompt context query) w1
    = (Ok response, w2) ->
  chat_try self query language s
  = bind (if needs_translation self language
          then translate_text self response language else ret response)
      (fun final_response =>
         bind (get_relevant_documents self query)
           (fun source_docs =>
              bind (lift (for_each source_entry source_docs))
                (fun sources =>
                   ret (success_answer final_response sources query language))))
      {| world := w2;
         calls := calls s ++ [EvEmbedQuery query;
                              EvInvoke (system_prompt self)
                                       (human_prompt context query)] |}.
Proof.
  intros Hv Hc Hr. rewrite chat_try_steps. unfold bind at 1.
  by rewrite (rag_chain_run _ _ _ _ _ _ _ _ Hv Hc Hr).
Qed.

(** X9: on an empty collection a chat still goes through: the language
    model is asked with an empty context, and the answer carries its
    response with no sources and a [source_count] of zero. *)
Theorem chat_on_empty_collection self query language s v w1 response w2 v' w3 :
  collection self = [] ->
  needs_translation self language = false ->
  embed_query self query (world s) = (Ok v, w1) ->
  llm_invoke self (system_prompt self) (human_prompt "" query) w1
    = (Ok response, w2) ->
  embed_query self query w2 = (Ok v', w3) ->
  chat self query language s
  = (success_answer response [] query language,
     {| world := w3;
        calls := calls s ++ [EvEmbedQuery query;
                             EvInvoke (system_prompt self) (human_prompt "" query);
                             EvEmbedQuery query] |}).
Proof.
  intros Hempty Hnone Hv Hr Hv'. unfold chat.
  rewrite (chat_try_after_model self query language s v w1 "" response w2 Hv);
    [| by rewrite index_query_empty | exact Hr].
  rewrite Hnone. unfold bind at 1. unfold ret at 1. unfold bind at 1.
  rewrite (retrieval_run self query _ v' w3) by exact Hv'.
  rewrite index_query_empty by exact Hempty. simpl.
  by rewrite <- app_assoc.
Qed.

(** X10: a translator that fails does not fail the chat.  When the
    detection raises on the response, the answer carries the response of
    the model as it is, with the sources and no [error]. *)
Theorem chat_translation_soft_failure
    self query language s tr v w1 context response w2 e w3 v' w4 sources :
  translator self = Some tr ->
  is_english language = false ->
  embed_query self query (world s) = (Ok v, w1) ->
  format_docs (map entry_document (index_query self v 5)) = Ok context ->
  llm_invoke self (system_prompt self) (human_prompt context query) w1
    = (Ok response, w2) ->
  detect tr response w2 = (Raise e, w3) ->
  embed_query self query w3 = (Ok v', w4) ->
  for_each source_entry (map entry_document (index_query self v' 5)) = Ok sources ->
  chat self query language s
  = (success_answer response sources query language,
     {| world := w4;
        calls := calls s ++ [EvEmbedQuery query;
                             EvInvoke (system_prompt self) (human_prompt context query);
                             EvDetect response;
                             EvEmbedQuery query] |}).
Proof.
  intros Htr Hen Hv Hc Hr Hd Hv' Hsources. unfold chat.
  rewrite (chat_try_after_model self query language s v w1 context response w2 Hv Hc Hr).
  assert (Hneeds : needs_translation self language = true).
  { unfold needs_translation. by rewrite Hen, Htr. }
  rewrite Hneeds. unfold bind at 1.
  rewrite (translate_text_stops_after_detect_aux self response language _ tr (Raise e) w3);
    [| exact Htr | exact Hen | exact Hd | exact I].
  unfold bind at 1.
  rewrite (retrieval_run self query _ v' w4) by exact Hv'.
  unfold bind, lift, ret. rewrite Hsources. simpl.
  by rewrite <- !app_assoc.
Qed.

(** X11: with a working translator and a language that is not English,
    the response of the answer is the translation of what the model said;
    the processed query and the sources stay as they are. *)
Theorem chat_translates_response
    self query language s tr v w1 context response w2 d w3 source r w4
    translated v' w5 sources :
  translator self = Some tr ->
  is_english language = false ->
  embed_query self query (world s) = (Ok v, w1) ->
  format_docs (map entry_document (index_query self v 5)) = Ok context ->
  llm_invoke self (system_prompt self) (human_prompt context query) w1
    = (Ok response, w2) ->
  detect tr response w2 = (Ok d, w3) ->
  d !! "language" = Some source ->
  source <> language ->
  translate tr response language source w3 = (Ok r, w4) ->
  r !! "translatedText" = Some translated ->
  embed_query self query w4 = (Ok v', w5) ->
  for_each source_entry (map entry_document (index_query self v' 5)) = Ok sources ->
  chat self query language s
  = (success_answer translated sources query language,
     {| world := w5;
        calls := calls s ++ [EvEmbedQuery query;
                             EvInvoke (system_prompt self) (human_prompt context query);
                             EvDetect response;
                             EvTranslate response language source;
                             EvEmbedQuery query] |}).
Proof.
  intros Htr Hen Hv Hc Hr Hd Hsrc Hne Ht Htext Hv' Hsources. unfold chat.
  rewrite (chat_try_after_model self query language s v w1 context response w2 Hv Hc Hr).
  assert (Hneeds : needs_translation self language = true).
  { unfold needs_translation. by rewrite Hen, Htr. }
  rewrite Hneeds. unfold bind at 1.
  rewrite (translate_text_translates_aux self response language _ tr d w3 source r w4
             translated Htr Hen);
    [| exact Hd | exact Hsrc | exact Hne | exact Ht | exact Htext].
  unfold bind at 1.
  rewrite (retrieval_run self query _ v' w5) by exact Hv'.
  unfold bind, lift, ret. rewrite Hsources. simpl.
  by rewrite <- !app_assoc.
Qed.

End ChatScenarios.

Lemma chat_on_empty_collection_witness :
  chat (working_agent 0 None) "What did you build?" "en" start
  = (success_answer "I worked on it [Source: notes.txt]." [] "What did you build?" "en",
     {| world := tt;
        calls := [EvEmbedQuery "What did you build?";
                  EvInvoke "You are the VitaeAgent."
                           (human_prompt "" "What did you build?");
                  EvEmbedQuery "What did you build?"] |}).
Proof.
  eapply (chat_on_empty_collection (working_agent 0 None) "What did you build?" "en"
            start); reflexivity.
Defined.

Lemma chat_translation_soft_failure_witness :
  exists context sources,
    chat (working_agent 3 (Some broken_translator)) "What did you build?" "fr" start
    = (success_answer "I worked on it [Source: notes.txt]." sources
         "What did you build?" "fr",
       {| world := tt;
          calls := [EvEmbedQuery "What did you build?";
                    EvInvoke "You are the VitaeAgent."
                             (human_prompt context "What did you build?");
                    EvDetect "I worked on it [Source: notes.txt].";
                    EvEmbedQuery "What did you build?"] |}).
Proof.
  eexists _, _.
  eapply (chat_translation_soft_failure
            (working_agent 3 (Some broken_translator)) "What did you build?" "fr" start);
    reflexivity.
Defined.

Lemma chat_translates_response_witness :
  exists context sources,
    chat (working_agent 3 (Some working_translator)) "What did you build?" "fr" start
    = (success_answer "[fr] I worked on it [Source: notes.txt]." sources
         "What did you build?" "fr",
       {| world := tt;
          calls := [EvEmbedQuery "What did you build?";
                    EvInvoke "You are the VitaeAgent."
                             (human_prompt context "What did you build?");
                    EvDetect "I worked on it [Source: notes.txt].";
                    EvTranslate "I worked on it [Source: notes.txt]." "fr" "en";
                    EvEmbedQuery "What did you build?"] |}).
Proof.
  eexists _, _.
  eapply (chat_translates_response
            (working_agent 3 (Some working_translator)) "What did you build?" "fr" start);
    [reflexivity | reflexivity | reflexivity | reflexivity | reflexivity | reflexivity
     | reflexivity | discriminate | reflexivity | reflexivity | reflexivity
     | reflexivity].
Defined.

(** ** The health check, probe by probe *)

Section HealthRuns.

Context {World : Type} {Vec : Type}.
Implicit Types (self : VitaeAgent World Vec) (s : State World).

Lemma ltb_0_length (text : string) :
  Nat.ltb 0 (String.length text) = nonempty text.
Proof. by destruct text. Qed.

Lemma health_check_retriever_down_aux self s e w1 :
  embed_query self "test" (world s) = (Raise e, w1) ->
  (health_check self s).2
  = {| world := w1; calls := calls s ++ [EvEmbedQuery "test"] |} /\
  (health_check self s).1 !! "retriever_ready" = Some (VBool false) /\
  (health_check self s).1 !! "llm_ready" = Some (VBool false) /\
  (health_check self s).1 !! "database_count" = Some (VInt 0) /\
  (health_check self s).1 !! "error" = Some (VStr (str_exn e)).
Proof.
  intros He. unfold health_check, get_relevant_documents, bind, call.
  rewrite He. simpl. repeat split; by simplify_map_eq.
Qed.

Lemma health_check_model_probe_aux self s v w1 r w2 :
  embed_query self "test" (world s) = (Ok v, w1) ->
  llm_predict self "Hello" w1 = (r, w2) ->
  (health_check self s).2
  = {| world := w2; calls := calls s ++ [EvEmbedQuery "test"; EvPredict "Hello"] |} /\
  (health_check self s).1 !! "retriever_ready" = Some (VBool true) /\
  match r with
  | Ok test_response =>
      (health_check self s).1 !! "llm_ready" = Some (VBool (nonempty test_response)) /\
      (health_check self s).1 !! "error" = None
  | Raise e =>
      (health_check self s).1 !! "llm_ready" = Some (VBool false) /\
      (health_check self s).1 !! "error" = Some (VStr (str_exn e))
  end.
Proof.
  intros Hv Hr. unfold health_check, get_relevant_documents, bind, call, ret.
  rewrite Hv. simpl. rewrite Hr.
  destruct r as [test_response | e]; simpl; rewrite <- ?app_assoc;
    rewrite ?ltb_0_length; repeat split; by simplify_map_eq.
Qed.

(** X12: when the retriever raises on the probe query, the language
    model is not probed at all: the one call made is the embedding of
    [test], both readiness flags stay false, the count stays zero and the
    text of the exception is reported. *)
Theorem health_check_retriever_down self s e w1 :
  embed_query self "test" (world s) = (Raise e, w1) ->
  (health_check self s).2
  = {| world := w1; calls := calls s ++ [EvEmbedQuery "test"] |} /\
  (health_check self s).1 !! "retriever_ready" = Some (VBool false) /\
  (health_check self s).1 !! "llm_ready" = Some (VBool false) /\
  (health_check self s).1 !! "database_count" = Some (VInt 0) /\
  (health_check self s).1 !! "error" = Some (VStr (str_exn e)).
Proof. apply health_check_retriever_down_aux. Qed.

(** X13: once the retriever has answered, the language model is probed
    with [Hello].  If it answers, [llm_ready] tells whether the answer is
    non-empty and no error is reported; if it raises, [llm_ready] is false
    and the exception is reported, while [retriever_ready] stays true. *)
Theorem health_check_model_probe self s v w1 r w2 :
  embed_query self "test" (world s) = (Ok v, w1) ->
  llm_predict self "Hello" w1 = (r, w2) ->
  (health_check self s).2
  = {| world := w2; calls := calls s ++ [EvEmbedQuery "test"; EvPredict "Hello"] |} /\
  (health_check self s).1 !! "retriever_ready" = Some (VBool true) /\
  match r with
  | Ok test_response =>
      (health_check self s).1 !! "llm_ready" = Some (VBool (nonempty test_response)) /\
      (health_check self s).1 !! "error" = None
  | Raise e =>
      (health_check self s).1 !! "llm_ready" = Some (VBool false) /\
      (health_check self s).1 !! "error" = Some (VStr (str_exn e))
  end.
Proof. apply health_check_model_probe_aux. Qed.

End HealthRuns.

Lemma health_check_retriever_down_witness :
  calls (health_check (failing_agent 3) start).2 = [EvEmbedQuery "test"] /\
  (health_check (failing_agent 3) start).1 !! "error"
  = Some (VStr "embedding model unreachable").
Proof.
  destruct (health_check_retriever_down (failing_agent 3) start
              (External "embedding model unreachable") tt eq_refl)
    as (Hstate & _ & _ & _ & Herr).
  split; [by rewrite Hstate | exact Herr].
Defined.

Lemma health_check_model_probe_witness :
  calls (health_check (working_agent 3 None) start).2
  = [EvEmbedQuery "test"; EvPredict "Hello"] /\
  (health_check (working_agent 3 None) start).1 !! "llm_ready" = Some (VBool true).
Proof.
  destruct (health_check_model_probe (working_agent 3 None) start 0 tt (Ok "Hello!") tt
              eq_refl eq_refl)
    as (Hstate & _ & Hready & _).
  split; [by rewrite Hstate | exact Hready].
Defined.

(** ** Model configuration *)

Section Configuration.

Context {World : Type}.
Implicit Types (env : gmap string string) (w : World).

(** X14: [get_llm] builds a model in two cases only: the provider is
    [openai], in any case of letters, and the API key is set and not
    empty; or the provider is [ollama] (also when none is set) and the
    server answers the probe with status 200. *)
Theorem get_llm_started_iff env (http_get : string -> World -> outcome Z * World) w :
  (exists model, (get_llm env http_get w).1 = Started model) <->
  (py_lower (env_get env "MODEL_PROVIDER" "ollama") = "openai" /\
   exists api_key, env !! "OPENAI_API_KEY" = Some api_key /\ api_key <> "") \/
  (py_lower (env_get env "MODEL_PROVIDER" "ollama") = "ollama" /\
   (http_get (env_get env "OLLAMA_BASE_URL" "http://localhost:11434" +:+ "/api/tags") w).1
   = Ok 200%Z).
Proof.
  unfold get_llm.
  destruct (String.eqb (py_lower (env_get env "MODEL_PROVIDER" "ollama")) "openai")
    eqn:Hopenai.
  - apply String.eqb_eq in Hopenai. rewrite Hopenai.
    destruct (env !! "OPENAI_API_KEY") as [api_key |] eqn:Hkey.
    + destruct (String.eqb api_key "") eqn:Hempty; simpl.
      * apply String.eqb_eq in Hempty as ->. split.
        -- intros [model H]. discriminate.
        -- intros [(_ & k & [= <-] & Hne) | [H _]]; [done | discriminate].
      * apply String.eqb_neq in Hempty. split.
        -- intros _. left. split; [done |]. by exists api_key.
        -- intros _. by eexists.
    + simpl. split.
      * intros [model H]. discriminate.
      * intros [(_ & k & H & _) | [H _]]; discriminate.
  - apply String.eqb_neq in Hopenai.
    destruct (String.eqb (py_lower (env_get env "MODEL_PROVIDER" "ollama")) "ollama")
      eqn:Hollama.
    + apply String.eqb_eq in Hollama.
      destruct (http_get _ w) as [[status_code | e] w'] eqn:Hget; simpl.
      * destruct (status_code =? 200)%Z eqn:Hstatus; simpl.
        -- apply Z.eqb_eq in Hstatus as ->. split; [| intros _; by eexists].
           intros _. right. by split.
        -- apply Z.eqb_neq in Hstatus. split.
           ++ intros [model H]. discriminate.
           ++ intros [[H _] | [_ [= H]]]; [done | done].
      * split.
        -- intros [model H]. discriminate.
        -- intros [[H _] | [_ H]]; [done | discriminate].
    + apply String.eqb_neq in Hollama. simpl. split.
      * intros [model H]. discriminate.
      * intros [[H _] | [H _]]; done.
Qed.

(** X15: with the [openai] provider the Ollama server is not contacted:
    the outcome is the same whatever the probe would answer, and the
    outside is left as it was. *)
Theorem get_llm_openai_no_probe env
    (http_get http_get' : string -> World -> outcome Z * World) w :
  py_lower (env_get env "MODEL_PROVIDER" "ollama") = "openai" ->
  get_llm env http_get w = get_llm env http_get' w /\
  (get_llm env http_get w).2 = w.
Proof.
  intros Hopenai. unfold get_llm. rewrite Hopenai. simpl.
  destruct (env !! "OPENAI_API_KEY") as [api_key |]; [| done].
  by destruct (String.eqb api_key "").
Qed.

(** X16: with the [ollama] provider, every failure of the probe, an
    exception as well as a status other than 200, comes out as the same
    [ConnectionError], which names the base url. *)
Theorem get_llm_ollama_unreachable env
    (http_get : string -> World -> outcome Z * World) w :
  py_lower (env_get env "MODEL_PROVIDER" "ollama") = "ollama" ->
  (http_get (env_get env "OLLAMA_BASE_URL" "http://localhost:11434" +:+ "/api/tags") w).1
    <> Ok 200%Z ->
  (get_llm env http_get w).1
  = Refused (ConnectionError
               ("Cannot connect to Ollama at "
                +:+ env_get env "OLLAMA_BASE_URL" "http://localhost:11434"
                +:+ ". Make sure Ollama is running.")).
Proof.
  intros Hollama Hprobe. unfold get_llm. rewrite Hollama. simpl.
  destruct (http_get _ w) as [[status_code | e] w']; simpl in *; [| done].
  destruct (status_code =? 200)%Z eqn:Hstatus; [| done].
  apply Z.eqb_eq in Hstatus as ->. done.
Qed.

End Configuration.

(** X17: the agent and the ingestion engine agree on the embedding
    model.  Whenever [get_embeddings] builds a model, the engine started
    in the same environment builds the same one; the engine builds a model
    that the agent refuses only for a provider that is neither [openai]
    nor [local], where it falls back on the local model. *)
Theorem embeddings_agree (env : gmap string string) :
  (forall model, get_embeddings env = Started model ->
                 engine_embeddings env = Started model) /\
  (forall model, engine_embeddings env = Started model ->
                 get_embeddings env = Started model \/
                 (py_lower (env_get env "EMBEDDING_PROVIDER" "local") <> "openai" /\
                  py_lower (env_get env "EMBEDDING_PROVIDER" "local") <> "local" /\
                  model = HuggingFaceEmbeddings
                            (env_get env "LOCAL_EMBEDDING_MODEL" "all-MiniLM-L6-v2") /\
                  get_embeddings env
                  = Refused (ValueError
                               ("Unsupported embedding provider: "
                                +:+ py_lower (env_get env "EMBEDDING_PROVIDER" "local"))))).
Proof.
  unfold get_embeddings, engine_embeddings.
  destruct (String.eqb (py_lower (env_get env "EMBEDDING_PROVIDER" "local")) "openai")
    eqn:Hopenai.
  - split; [done |]. intros model H. by left.
  - apply String.eqb_neq in Hopenai.
    destruct (String.eqb (py_lower (env_get env "EMBEDDING_PROVIDER" "local")) "local")
      eqn:Hlocal.
    + split; [done |]. intros model H. by left.
    + apply String.eqb_neq in Hlocal. split; [discriminate |].
      intros model [= <-]. right. done.
Qed.

Lemma get_llm_started_iff_witness :
  (exists model,
      (get_llm (<["MODEL_PROVIDER" := "OpenAI"]> (<["OPENAI_API_KEY" := "sk-test"]> ∅))
               server_down tt).1 = Started model) /\
  (exists model, (get_llm ∅ server_up tt).1 = Started model).
Proof.
  split.
  - apply (get_llm_started_iff
             (<["MODEL_PROVIDER" := "OpenAI"]> (<["OPENAI_API_KEY" := "sk-test"]> ∅))
             server_down tt).
    left. split; [reflexivity |]. exists "sk-test". split; [reflexivity | discriminate].
  - apply (get_llm_started_iff ∅ server_up tt). right. split; reflexivity.
Defined.

Lemma get_llm_openai_no_probe_witness :
  get_llm (<["MODEL_PROVIDER" := "OPENAI"]> ∅) server_up tt
  = get_llm (<["MODEL_PROVIDER" := "OPENAI"]> ∅) server_down tt.
Proof.
  apply (get_llm_openai_no_probe (<["MODEL_PROVIDER" := "OPENAI"]> ∅)
           server_up server_down tt).
  reflexivity.
Defined.

Lemma get_llm_ollama_unreachable_witness :
  (get_llm (<["OLLAMA_BASE_URL" := "http://gpu:11434"]> ∅) server_error tt).1
  = Refused (ConnectionError
               "Cannot connect to Ollama at http://gpu:11434. Make sure Ollama is running.") /\
  (get_llm ∅ server_down tt).1
  = Refused (ConnectionError
               "Cannot connect to Ollama at http://localhost:11434. Make sure Ollama is running.").
Proof.
  split.
  - rewrite (get_llm_ollama_unreachable
               (<["OLLAMA_BASE_URL" := "http://gpu:11434"]> ∅) server_error tt);
      [reflexivity | reflexivity | discriminate].
  - rewrite (get_llm_ollama_unreachable ∅ server_down tt);
      [reflexivity | reflexivity | discriminate].
Defined.

Lemma embeddings_agree_witness :
  engine_embeddings (<["EMBEDDING_PROVIDER" := "Local"]> ∅)
  = Started (HuggingFaceEmbeddings "all-MiniLM-L6-v2") /\
  get_embeddings (<["EMBEDDING_PROVIDER" := "cohere"]> ∅)
  = Refused (ValueError "Unsupported embedding provider: cohere").
Proof.
  split.
  - apply (proj1 (embeddings_agree (<["EMBEDDING_PROVIDER" := "Local"]> ∅))).
    reflexivity.
  - assert (Hengine : engine_embeddings (<["EMBEDDING_PROVIDER" := "cohere"]> ∅)
                      = Started (HuggingFaceEmbeddings "all-MiniLM-L6-v2"))
      by reflexivity.
    destruct (proj2 (embeddings_agree (<["EMBEDDING_PROVIDER" := "cohere"]> ∅))
                (HuggingFaceEmbeddings "all-MiniLM-L6-v2") Hengine)
      as [H | (_ & _ & _ & H)]; [vm_compute in H; discriminate | exact H].
Defined.

(** ** The endpoints *)

Lemma rstrip_empty_iff (text : string) : rstrip text = "" <-> all_space text = true.
Proof.
  induction text as [| c rest IH]; simpl; [done |].
  destruct (rstrip rest) as [| c' kept] eqn:Hrest.
  - destruct (is_space c); simpl.
    + split; [intros _; by apply IH | done].
    + split; discriminate.
  - split; [discriminate |]. intros [_ H]%andb_true_iff.
    apply IH in H. discriminate.
Qed.

Lemma all_space_lstrip (text : string) : all_space (lstrip text) = all_space text.
Proof.
  induction text as [| c rest IH]; simpl; [done |].
  destruct (is_space c) eqn:Hc; simpl; [exact IH | by rewrite Hc].
Qed.

(** Stripping leaves nothing exactly of the texts of whitespace. *)
Lemma strip_empty_iff (text : string) : strip text = "" <-> all_space text = true.
Proof. unfold strip. by rewrite rstrip_empty_iff, all_space_lstrip. Qed.

Lemma source_entries_are_dicts (docs : list Document) (sources : list PyVal) :
  for_each source_entry docs = Ok sources -> forallb is_dict sources = true.
Proof.
  revert sources. induction docs as [| doc docs IH]; intros sources; simpl.
  - by intros [= <-].
  - unfold source_entry at 1.
    destruct (_extract_source_info (metadata doc)) as [info | e]; [| discriminate].
    destruct (for_each source_entry docs) as [rest | e]; [| discriminate].
    intros [= <-]. simpl. by apply IH.
Qed.

Lemma chat_response_success (final_response : string) (sources : list PyVal)
    (query language : string) :
  forallb is_dict sources = true ->
  chat_response (success_answer final_response sources query language)
  = Some (success_answer final_response sources query language).
Proof.
  intros Hdicts. unfold chat_response, success_answer.
  simplify_map_eq. by rewrite Hdicts.
Qed.

Section EndpointProperties.

Context {World : Type} {Vec : Type}.
Implicit Types (self : VitaeAgent World Vec) (s : State World).

Lemma chat_try_Ok_dicts self query language s answer s' :
  chat_try self query language s = (Ok answer, s') ->
  exists final_response sources,
    answer = success_answer final_response sources query language /\
    forallb is_dict sources = true.
Proof.
  rewrite chat_try_steps. unfold bind, ret, lift. intros H.
  repeat case_match; simplify_eq;
    eexists _, _; (split; [reflexivity | by eapply source_entries_are_dicts]).
Qed.

(** X18: the agent is looked for first, the query second.  Before the
    agent is there every request is answered 503; with an agent, a query
    that is empty or made of whitespace only is answered 400, and the
    agent is not called. *)
Theorem chat_endpoint_rejects_blank self query language s :
  chat_endpoint (Vec := Vec) None query language s
  = (HTTPException 503 "VitaeAgent is not initialized", s) /\
  (all_space query = true ->
   chat_endpoint (Some self) query language s
   = (HTTPException 400 "Query cannot be empty", s)).
Proof.
  split; [reflexivity |].
  intros Hblank. unfold chat_endpoint.
  apply strip_empty_iff in Hblank. by rewrite Hblank.
Qed.

(** X19: for a query that is not blank, the endpoint answers 200 with
    the very dictionary of the agent when the chat went through, and 500
    with a fixed detail when an exception was caught inside the agent: the
    text of the exception is not part of the reply, and the response model
    never rejects what the agent returns. *)
Theorem chat_endpoint_reply self query language s :
  all_space query = false ->
  chat_endpoint (Some self) query language s
  = (match (chat_try self query language s).1 with
     | Ok answer => Success answer
     | Raise e => HTTPException 500 "An error occurred while processing your request"
     end,
     (chat self query language s).2).
Proof.
  intros Hblank. unfold chat_endpoint.
  assert (Hstrip : String.eqb (strip query) "" = false).
  { apply String.eqb_neq. rewrite strip_empty_iff. by rewrite Hblank. }
  rewrite Hstrip. unfold chat.
  destruct (chat_try self query language s) as [[answer | e] s'] eqn:Htry; simpl.
  - apply chat_try_Ok_dicts in Htry as (final & sources & -> & Hdicts).
    rewrite bool_decide_eq_false_2.
    + by rewrite chat_response_success.
    + intros [v Hv]. unfold success_answer in Hv. by simplify_map_eq.
  - rewrite bool_decide_eq_true_2; [done |].
    destruct (chat_except_fields query language e) as (_ & _ & _ & _ & _ & He & _).
    by eexists.
Qed.

(** X20: the overall status of the health endpoint.  It is [unhealthy]
    without an agent and whenever a probe raises; when both probes answer
    it is [healthy] if the language model said something and [degraded] if
    its answer was empty. *)
Theorem health_endpoint_status self s r1 w1 :
  embed_query self "test" (world s) = (r1, w1) ->
  status (health_endpoint (Vec := Vec) None s).1 = "unhealthy" /\
  match r1 with
  | Raise e => status (health_endpoint (Some self) s).1 = "unhealthy"
  | Ok v =>
      forall r2 w2,
        llm_predict self "Hello" w1 = (r2, w2) ->
        status (health_endpoint (Some self) s).1
        = match r2 with
          | Raise e => "unhealthy"
          | Ok test_response =>
              if nonempty test_response then "healthy" else "degraded"
          end
  end.
Proof.
  intros Hr1. split; [reflexivity |].
  unfold health_endpoint.
  destruct r1 as [v | e].
  - intros r2 w2 Hr2.
    destruct (health_check_model_probe_aux self s v w1 r2 w2 Hr1 Hr2)
      as (_ & Hready & Hllm).
    destruct (health_check self s) as [health_data s']. simpl in *.
    rewrite Hready. destruct r2 as [test_response | e2].
    + destruct Hllm as [Hllm Herr]. rewrite Hllm, Herr. simpl.
      by destruct (nonempty test_response).
    + destruct Hllm as [Hllm Herr]. by rewrite Hllm, Herr.
  - destruct (health_check_retriever_down_aux self s e w1 Hr1)
      as (_ & Hready & Hllm & _ & Herr).
    destruct (health_check self s) as [health_data s']. simpl in *.
    by rewrite Hready, Herr.
Qed.

(** X21: the statistics endpoint answers 200 whatever the probes do.
    Its [knowledge_base_size] is the number of documents the probe query
    retrieved, the smaller of 5 and the number of stored entries, and 0
    when the retriever raised; [retriever_status] is [ready] exactly when
    the retriever answered. *)
Theorem get_stats_knowledge_base_size self s r1 w1 :
  embed_query self "test" (world s) = (r1, w1) ->
  exists body,
    (get_stats (Some self) s).1 = Success body /\
    body !! "knowledge_base_size"
    = Some (VInt (match r1 with
                  | Ok _ => Z.of_nat (Nat.min 5 (count self))
                  | Raise _ => 0
                  end)) /\
    body !! "retriever_status"
    = Some (VStr (match r1 with Ok _ => "ready" | Raise _ => "not_ready" end)).
Proof.
  intros Hr1. unfold get_stats.
  destruct r1 as [v | e].
  - destruct (health_check_retrieved self s v w1 Hr1) as [Hready Hcount].
    destruct (health_check self s) as [health_data s']. simpl in *.
    eexists. split; [reflexivity |].
    rewrite Hready, Hcount. simpl. split; by simplify_map_eq.
  - destruct (health_check_retriever_down_aux self s e w1 Hr1)
      as (_ & Hready & _ & Hcount & _).
    destruct (health_check self s) as [health_data s']. simpl in *.
    eexists. split; [reflexivity |].
    rewrite Hready, Hcount. simpl. split; by simplify_map_eq.
Qed.

End EndpointProperties.

Lemma chat_endpoint_rejects_blank_witness :
  chat_endpoint (Some (working_agent 3 None)) ("  " +:+ nl) "en" start
  = (HTTPException 400 "Query cannot be empty", start) /\
  chat_endpoint (Some (working_agent 3 None)) "" "en" start
  = (HTTPException 400 "Query cannot be empty", start).
Proof.
  split.
  - apply (chat_endpoint_rejects_blank (working_agent 3 None) ("  " +:+ nl) "en" start).
    reflexivity.
  - apply (chat_endpoint_rejects_blank (working_agent 3 None) "" "en" start).
    reflexivity.
Defined.

Lemma chat_endpoint_reply_witness :
  (chat_endpoint (Some (working_agent 3 None)) "What did you build?" "en" start).1
  = Success (chat (working_agent 3 None) "What did you build?" "en" start).1 /\
  (chat_endpoint (Some (failing_agent 3)) "What did you build?" "en" start).1
  = HTTPException 500 "An error occurred while processing your request".
Proof.
  split.
  - rewrite (chat_endpoint_reply (working_agent 3 None) "What did you build?" "en" start)
      by reflexivity.
    reflexivity.
  - rewrite (chat_endpoint_reply (failing_agent 3) "What did you build?" "en" start)
      by reflexivity.
    reflexivity.
Defined.

Lemma health_endpoint_status_witness :
  status (health_endpoint (Some (working_agent 3 None)) start).1 = "healthy" /\
  status (health_endpoint (Some (failing_agent 3)) start).1 = "unhealthy".
Proof.
  split.
  - destruct (health_endpoint_status (working_agent 3 None) start (Ok 0) tt eq_refl)
      as [_ H].
    apply (H (Ok "Hello!") tt eq_refl).
  - destruct (health_endpoint_status (failing_agent 3) start
                (Raise (External "embedding model unreachable")) tt eq_refl)
      as [_ H].
    exact H.
Defined.

Lemma get_stats_knowledge_base_size_witness :
  exists body,
    (get_stats (Some (working_agent 7 None)) start).1 = Success body /\
    body !! "knowledge_base_size" = Some (VInt 5).
Proof.
  destruct (get_stats_knowledge_base_size (working_agent 7 None) start (Ok 0) tt eq_refl)
    as (body & Hbody & Hsize & _).
  exists body. split; [exact Hbody | exact Hsize].
Defined.

(** ** Batches and the storing loop *)

Lemma range_step_lt (n j : nat) :
  j < (n + 100 - 1) / 100 -> j * 100 < n.
Proof.
  intros Hj.
  pose proof (Nat.div_mod_eq (n + 100 - 1) 100) as Hdiv.
  pose proof (Nat.mod_upper_bound (n + 100 - 1) 100) as Hmod. lia.
Qed.

Lemma length_slice {A : Type} (i j : nat) (l : list A) :
  length (slice i j l) = Nat.min (j - i) (length l - i).
Proof. unfold slice. by rewrite length_take, length_drop. Qed.

(** X22: the rounds of the storing loop.  There are as many as
    hundreds in the number of chunks, rounded up; every round carries at
    least one chunk and at most a hundred, and as many texts and metadata
    records as ids. *)
Theorem batches_shape (chunks : list Document) :
  length (batches chunks) = (length chunks + 99) / 100 /\
  Forall (fun b =>
            1 <= length (batch_ids b) <= 100 /\
            length (batch_texts b) = length (batch_ids b) /\
            length (batch_metadatas b) = length (batch_ids b))
         (batches chunks).
Proof.
  unfold batches, range_step, batch_size. rewrite !length_map, length_seq.
  split; [f_equal; lia |].
  rewrite map_map. apply Forall_forall. intros b Hb.
  apply list_elem_of_In, in_map_iff in Hb as (j & <- & Hj).
  apply in_seq in Hj as [_ Hj]. simpl in Hj. apply range_step_lt in Hj.
  simpl. rewrite !length_slice, length_chunk_ids, !length_map. lia.
Qed.

Section StoringLoop.

Context {World : Type} {Vec : Type}.
Implicit Types (self : DataIngestionEngine World Vec) (s : State World).

(** X23: every round of the storing loop is tried, once and in order,
    whatever happened in the rounds before: the texts given to the
    embedding model, call by call, are the texts of the batches; and the
    call as a whole returns normally.  Without documents nothing is
    called. *)
Theorem store_tries_every_batch self (documents : list Document) s :
  exists new,
    process_and_store_documents self documents s
    = (Ok tt, (process_and_store_documents self documents s).2) /\
    calls (process_and_store_documents self documents s).2 = (calls s ++ new)%list /\
    embedded_texts new
    = map batch_texts (batches (split_documents text_splitter documents)) /\
    (documents = [] -> new = []).
Proof.
  destruct documents as [| doc rest].
  - exists []. simpl. by rewrite app_nil_r.
  - cbn [process_and_store_documents].
    destruct (store_batches_calls self
                (batches (split_documents text_splitter (doc :: rest))) s)
      as (new & Hcalls & Htexts & _).
    exists new. split; [| split; [exact Hcalls | split; [exact Htexts | done]]].
    pose proof (store_batches_returns self
                  (batches (split_documents text_splitter (doc :: rest))) s) as Hret.
    destruct (store_batches _ _ s) as [r s']. simpl in *. by rewrite Hret.
Qed.

(** X24: when the embedding model answers every call, the ids handed
    to the collection, in the order of the calls, are the ids of the
    chunks in chunk order, whether the collection accepts them or not. *)
Theorem store_hands_over_chunk_ids self (documents : list Document) s :
  (forall texts w, exists vs w', embed_documents self texts w = (Ok vs, w')) ->
  exists new,
    calls (process_and_store_documents self documents s).2 = (calls s ++ new)%list /\
    added_ids new = chunk_ids (split_documents text_splitter documents).
Proof.
  intros Hembed. destruct documents as [| doc rest].
  - exists []. simpl. by rewrite app_nil_r.
  - cbn [process_and_store_documents].
    destruct (store_batches_calls self
                (batches (split_documents text_splitter (doc :: rest))) s)
      as (new & Hcalls & _ & Hids).
    exists new. split; [exact Hcalls |].
    rewrite Hids by exact Hembed. apply batch_ids_concat.
Qed.

End StoringLoop.

Lemma store_hands_over_chunk_ids_witness :
  exists new,
    calls (process_and_store_documents refusing_engine
             [mkDocument "Ten years of Python." notes_metadata] start).2 = new /\
    added_ids new = ["chunk_0"].
Proof.
  destruct (store_hands_over_chunk_ids refusing_engine
              [mkDocument "Ten years of Python." notes_metadata] start)
    as (new & Hcalls & Hids).
  { intros texts w. by eexists _, _. }
  exists new. split; [exact Hcalls | exact Hids].
Defined.

Lemma store_tries_every_batch_witness :
  exists new,
    calls (process_and_store_documents refusing_engine [] start).2 = new /\
    new = [].
Proof.
  destruct (store_tries_every_batch refusing_engine [] start)
    as (new & _ & Hcalls & _ & Hnone).
  exists new. split; [exact Hcalls | by apply Hnone].
Defined.

(** ** The loaders *)

Section LoaderProperties.

Context {World : Type}.

Lemma load_files_tagged (source_type : string)
    (load : string -> World -> outcome (list Document) * World)
    (names : list string) (w : World) (doc : Document) :
  In doc (load_files source_type load names w).1 ->
  exists name original,
    In name names /\
    doc = tag_document source_type name ("data/" +:+ name) original.
Proof.
  revert w. induction names as [| name rest IH]; intros w; simpl; [tauto |].
  destruct (load ("data/" +:+ name) w) as [[docs | e] w1].
  - specialize (IH w1).
    destruct (load_files source_type load rest w1) as [more w2]. simpl in *.
    rewrite in_app_iff, in_map_iff. intros [(original & <- & _) | Hmore].
    + exists name, original. split; [by left | reflexivity].
    + destruct (IH Hmore) as (name' & original & Hin & ->).
      exists name', original. split; [by right | reflexivity].
  - intros Hin. destruct (IH w1 Hin) as (name' & original & Hin' & ->).
    exists name', original. split; [by right | reflexivity].
Qed.

(** X25: every document the PDF loader returns is tagged with the name
    of its file and the source type [pdf]; with the 0-based page number
    the loader of the library leaves in the metadata, its label is the
    file name and the page number counted from one. *)
Theorem pdf_documents_labelled
    (pdf_loader : string -> World -> outcome (list Document) * World)
    (pdf_files : list string) (w : World) (doc : Document) :
  In doc (load_pdf_documents pdf_loader pdf_files w).1 ->
  exists name,
    In name pdf_files /\
    metadata doc !! "source" = Some (SStr name) /\
    metadata doc !! "source_type" = Some (SStr "pdf") /\
    metadata doc !! "file_path" = Some (SStr ("data/" +:+ name)) /\
    (forall p, metadata doc !! "page" = Some (SInt p) ->
               _extract_source_info (metadata doc)
               = Ok (SStr (name +:+ ", Page " +:+ str_int (p + 1)))).
Proof.
  intros Hin. apply load_files_tagged in Hin as (name & original & Hname & ->).
  exists name. split; [exact Hname |]. simpl.
  split; [by simplify_map_eq |]. split; [by simplify_map_eq |].
  split; [by simplify_map_eq |].
  intros p Hp. unfold _extract_source_info, get. simplify_map_eq. reflexivity.
Qed.

(** X26: every document the text loader returns, from a [.txt] or a
    [.md] file, is labelled with the name of its file, and computing the
    label never raises. *)
Theorem text_documents_labelled
    (text_loader : string -> World -> outcome (list Document) * World)
    (txt_files md_files : list string) (w : World) (doc : Document) :
  In doc (load_text_documents text_loader txt_files md_files w).1 ->
  exists name,
    (In name txt_files \/ In name md_files) /\
    _extract_source_info (metadata doc) = Ok (SStr name).
Proof.
  intros Hin. apply load_files_tagged in Hin as (name & original & Hname & ->).
  exists name. split; [by apply in_app_iff |].
  unfold _extract_source_info, get. simpl. by simplify_map_eq.
Qed.



(** X28: the agent is built once.  After a call of [get_agent] that
    returned an agent, every later call returns that agent and does not
    run the constructor, whatever the constructor would do then; a call
    whose construction raised leaves no agent behind, so that the next
    call tries again. *)
Theorem get_agent_builds_once {Agent : Type}
    (construct : World -> outcome Agent * World)
    (instance : option Agent) (w : World) :
  (forall agent instance' w',
      get_agent construct instance w = (Ok agent, instance', w') ->
      forall (construct' : World -> outcome Agent * World) (w'' : World),
        get_agent construct' instance' w'' = (Ok agent, instance', w'')) /\
  (forall e instance' w',
      get_agent construct instance w = (Raise e, instance', w') ->
      instance = None /\ instance' = None).
Proof.
  unfold get_agent. split.
  - intros agent instance' w' H construct' w''.
    destruct instance as [a |].
    + by injection H as <- <- <-.
    + destruct (construct w) as [[a | e] w1]; [| discriminate].
      by injection H as <- <- <-.
  - intros e instance' w' H.
    destruct instance as [a |]; [discriminate |].
    destruct (construct w) as [[a | e'] w1]; [discriminate |].
    by injection H as <- <- <-.
Qed.

End LoaderProperties.

Lemma pdf_documents_labelled_witness :
  exists doc,
    (load_pdf_documents fails_on_broken ["broken.pdf"; "cv.pdf"] tt).1 !! 1 = Some doc /\
    _extract_source_info (metadata doc) = Ok (SStr "cv.pdf, Page 2").
Proof.
  exists (tag_document "pdf" "cv.pdf" "data/cv.pdf"
            (mkDocument "page two"
               (<["source" := SStr "data/cv.pdf"]> (<["page" := SInt 1]> ∅)))).
  split; [reflexivity |].
  destruct (pdf_documents_labelled fails_on_broken ["broken.pdf"; "cv.pdf"] tt
              (tag_document "pdf" "cv.pdf" "data/cv.pdf"
                 (mkDocument "page two"
                    (<["source" := SStr "data/cv.pdf"]> (<["page" := SInt 1]> ∅)))))
    as (name & _ & Hsource & _ & _ & Hlabel).
  { right. left. reflexivity. }
  assert (Hname : name = "cv.pdf").
  { vm_compute in Hsource. by injection Hsource. }
  subst name. apply (Hlabel 1%Z). reflexivity.
Defined.

Lemma text_documents_labelled_witness :
  exists name,
    _extract_source_info
      (metadata (tag_document "text" "notes.md" "data/notes.md"
                   (mkDocument "# Notes" (<["source" := SStr "data/notes.md"]> ∅))))
    = Ok (SStr name).
Proof.
  destruct (text_documents_labelled
              (fun path w => (Ok [mkDocument "# Notes" (<["source" := SStr path]> ∅)], w))
              [] ["notes.md"] tt
              (tag_document "text" "notes.md" "data/notes.md"
                 (mkDocument "# Notes" (<["source" := SStr "data/notes.md"]> ∅))))
    as (name & _ & Hlabel).
  { left. reflexivity. }
  by exists name.
Defined.


Lemma get_agent_builds_once_witness :
  get_agent (fun w : unit => (Raise (External "never run"), w)) (Some 7) tt
  = (Ok 7, Some 7, tt).
Proof.
  apply (proj1 (get_agent_builds_once (fun w : unit => (Ok 7, w)) None tt)
           7 (Some 7) tt eq_refl).
Defined.

(** ** The list of blog urls *)

Lemma lstrip_head (text : string) :
  lstrip text = "" \/
  exists c rest, lstrip text = String c rest /\ is_space c = false.
Proof.
  induction text as [| c rest IH]; simpl; [by left |].
  destruct (is_space c) eqn:Hc; [exact IH |]. right. by exists c, rest.
Qed.

Lemma rstrip_head (c : ascii) (rest : string) :
  is_space c = false -> exists kept, rstrip (String c rest) = String c kept.
Proof.
  intros Hc. simpl. destruct (rstrip rest) as [| c' kept]; rewrite ?Hc; by eexists.
Qed.

Lemma rstrip_idemp (text : string) : rstrip (rstrip text) = rstrip text.
Proof.
  induction text as [| c rest IH]; simpl; [done |].
  destruct (rstrip rest) as [| c' kept] eqn:Hrest.
  - destruct (is_space c) eqn:Hc; simpl; [done | by rewrite Hc].
  - change (rstrip (String c (String c' kept))) with
      (match rstrip (String c' kept) with
       | "" => if is_space c then "" else String c ""
       | kept' => String c kept'
       end).
    by rewrite IH.
Qed.

(** Stripping twice is stripping once. *)
Lemma strip_idemp (text : string) : strip (strip text) = strip text.
Proof.
  unfold strip. destruct (lstrip_head text) as [-> | (c & rest & -> & Hc)]; [done |].
  destruct (rstrip_head c rest Hc) as [kept Hkept]. rewrite Hkept.
  simpl lstrip. rewrite Hc. rewrite <- Hkept. apply rstrip_idemp.
Qed.

(** X29: the urls read from the list of blog urls.  Every one is a line
    of the file, stripped; none is empty and none begins or ends with
    whitespace, so that a blank line, or a line of whitespace, gives no
    url; and there are no more urls than lines. *)
Theorem read_blog_urls_clean (lines : list string) :
  length (read_blog_urls lines) <= length lines /\
  forall url,
    In url (read_blog_urls lines) ->
    url <> "" /\ strip url = url /\ exists line, In line lines /\ url = strip line.
Proof.
  unfold read_blog_urls. split.
  - rewrite length_map. apply List.filter_length_le.
  - intros url Hin. apply in_map_iff in Hin as (line & <- & Hline).
    apply List.filter_In in Hline as [Hline Hkept].
    split; [by apply nonempty_true |]. split; [apply strip_idemp |].
    by exists line.
Qed.

Lemma read_blog_urls_clean_witness :
  read_blog_urls ["https://example.org/a" +:+ nl; nl; "  https://example.org/b"]
  = ["https://example.org/a"; "https://example.org/b"] /\
  strip "https://example.org/a" = "https://example.org/a".
Proof.
  split; [reflexivity |].
  apply (proj2 (read_blog_urls_clean
                  ["https://example.org/a" +:+ nl; nl; "  https://example.org/b"])
           "https://example.org/a").
  left. reflexivity.
Defined.
